(** * Worksphere backend: presence registry and chat controller

    A shallow embedding of [socket.js] (the connection registry and the
    presence broadcasts) and of [controllers/chatController.js] together
    with the [Conversation], [Message] and [Notification] models and
    [createNotification] of [controllers/notificationController.js].

    Conventions.
    - A JavaScript string is a [string]; its [length] counts the code units.
    - An ObjectId is a natural number [N] ordered like its twelve bytes;
      the store hands them out from an increasing counter, as the driver's
      generator does.
    - A [Date] is an integer number of milliseconds ([Z]); every handler
      takes the clock readings it makes as arguments.
    - The durable store is a record of tables; a table is a list in
      insertion order.  A store operation does not fail, so a handler
      answers 500 only when a document is rejected by its schema.
    - Ids in paths, queries and bodies are ObjectIds already cast.
    - The socket pushes of the chat and notification controllers
      ([emitChatEvent], [emitToActor]) write neither to the store nor to
      the registry and are left out, as are the profile fields a reply is
      enriched with and the [createdAt]/[updatedAt] stamps other than the
      message's [createdAt]. *)

From stdpp Require Import base option list strings gmap fin_maps.
From Stdlib Require Import Ascii ZArith NArith Lia Sorting.Sorted.

(** ** socket.js *)

Module Socket.

(** What a client sends with the "register" event: a plain id string (old
    clients), an object carrying [type] and [id], or anything else.  A
    missing or empty field of the object is the empty string (falsy). *)
Inductive payload :=
| PString (id : string)
| PObject (type id : string)
| POther.

(** The fields the register handler stores on the socket object. *)
Record actor_info := ActorInfo {
  actorKey : string;
  actorType : string;
  actorId : string
}.

(** Everything the two handlers emit. *)
Inductive emission :=
| Registered (socketId : string) (info : actor_info)  (* socket.emit("registered", ..) *)
| UserOnline (type id : string)                       (* ioInstance.emit("user:online", ..) *)
| UserOffline (type id : string).                     (* ioInstance.emit("user:offline", ..) *)

(** [connectedUsers] is the module level Map from actor key to the Set of
    socket ids; [sockets] holds the per-socket fields. *)
Record state := State {
  connectedUsers : gmap string (gset string);
  sockets : gmap string actor_info
}.

Definition init : state := State ∅ ∅.

Definition keyForActor (type id : string) : string :=
  (if String.eqb type "company" then "c" else "u") +:+ ":" +:+ id.

(** Truthiness of a string. *)
Definition truthy (s : string) : bool := negb (String.eqb s "").

(** The first half of the register handler: key, actorType, actorId. *)
Definition resolve (p : payload) : option actor_info :=
  match p with
  | PString id => Some (ActorInfo (keyForActor "user" id) "user" id)
  | PObject type id =>
      if truthy id && truthy type
      then Some (ActorInfo (keyForActor type id) type id)
      else None
  | POther => None
  end.

(** socket.on("register", ..) *)
Definition register (sid : string) (p : payload) (st : state)
  : state * list emission :=
  match resolve p with
  | Some info =>
      let key := actorKey info in
      let users :=
        match connectedUsers st !! key with
        | None => <[key := ∅]> (connectedUsers st)
        | Some _ => connectedUsers st
        end in
      let users := alter (λ set, set ∪ {[sid]}) key users in
      (State users (<[sid := info]> (sockets st)),
       [Registered sid info; UserOnline (actorType info) (actorId info)])
  | None => (st, [])
  end.

(** One turn of the loop of the disconnect handler over
    [connectedUsers.entries()]. *)
Definition disconnect_entry (sid : string) (me : option actor_info)
    (userId : string) (socketSet : gset string)
    (acc : gmap string (gset string) * list emission)
  : gmap string (gset string) * list emission :=
  let socketSet := socketSet ∖ {[sid]} in
  if decide (size socketSet = 0) then
    (delete userId acc.1,
     match me with
     | Some info =>
         if String.eqb userId (actorKey info)
            && truthy (actorType info) && truthy (actorId info)
         then acc.2 ++ [UserOffline (actorType info) (actorId info)]
         else acc.2
     | None => acc.2
     end)
  else (<[userId := socketSet]> acc.1, acc.2).

(** socket.on("disconnect", ..) *)
Definition disconnect (sid : string) (st : state) : state * list emission :=
  let me := sockets st !! sid in
  let r := map_fold (disconnect_entry sid me)
                    (connectedUsers st, []) (connectedUsers st) in
  (State r.1 (delete sid (sockets st)), r.2).

Definition isActorOnline (type id : string) (st : state) : bool :=
  let key := keyForActor type id in
  match connectedUsers st !! key with
  | Some set => bool_decide (0 < size set)
  | None => false
  end.

(** A connection lifecycle event, and a run of them. *)
Inductive op :=
| Register (sid : string) (p : payload)
| Disconnect (sid : string).

Definition step (st : state) (o : op) : state * list emission :=
  match o with
  | Register sid p => register sid p st
  | Disconnect sid => disconnect sid st
  end.

Fixpoint run (st : state) (ops : list op) : state * list emission :=
  match ops with
  | [] => (st, [])
  | o :: ops =>
      let r := step st o in
      let r' := run r.1 ops in
      (r'.1, r.2 ++ r'.2)
  end.

End Socket.

(** ** JavaScript strings *)

Module Js.

(** [s.slice(0, n)] *)
Definition slice0 (n : nat) (s : string) : string := String.substring 0 n s.

(** White space as [String.prototype.trim] sees it, on one-byte units. *)
Definition is_space (c : Ascii.ascii) : bool :=
  let n := Ascii.nat_of_ascii c in
  (n =? 32)%nat || ((9 <=? n)%nat && (n <=? 13)%nat) || (n =? 160)%nat.

Fixpoint trimStart (s : string) : string :=
  match s with
  | EmptyString => EmptyString
  | String c s' => if is_space c then trimStart s' else s
  end.

Fixpoint trimEnd (s : string) : string :=
  match s with
  | EmptyString => EmptyString
  | String c s' =>
      match trimEnd s' with
      | EmptyString => if is_space c then EmptyString else String c EmptyString
      | t => String c t
      end
  end.

Definition trim (s : string) : string := trimEnd (trimStart s).

(** [s.startsWith(p)] *)
Definition startsWith (p s : string) : bool := String.prefix p s.

Definition hex_digit (n : N) : Ascii.ascii :=
  match n with
  | 0%N => "0" | 1%N => "1" | 2%N => "2" | 3%N => "3" | 4%N => "4"
  | 5%N => "5" | 6%N => "6" | 7%N => "7" | 8%N => "8" | 9%N => "9"
  | 10%N => "a" | 11%N => "b" | 12%N => "c" | 13%N => "d" | 14%N => "e"
  | _ => "f"
  end%char.

Fixpoint hex_of (digits : nat) (n : N) (acc : string) : string :=
  match digits with
  | O => acc
  | S d => hex_of d (n / 16)%N (String (hex_digit (n mod 16)%N) acc)
  end.

(** [ObjectId.prototype.toString]: twenty-four hexadecimal digits. *)
Definition toString (id : N) : string := hex_of 24 id "".
Global Arguments toString : simpl never.

(** A stable insertion sort, [before a b] saying that [a] must come
    strictly before [b]: the order a [sort(..)] of the store gives. *)
Fixpoint insert_by {A} (before : A → A → bool) (x : A) (l : list A) : list A :=
  match l with
  | [] => [x]
  | h :: t => if before h x then h :: insert_by before x t else x :: h :: t
  end.

Definition sort_by {A} (before : A → A → bool) (l : list A) : list A :=
  foldr (insert_by before) [] l.

End Js.

(** ** The models *)

(** [req.actor], as the actor middleware sets it: [{ type: "user" |
    "company", id }]. *)
Module Actor.

Inductive kind := user | company.

Record t := Make { type : kind; id : N }.

Definition name (k : kind) : string :=
  match k with user => "user" | company => "company" end.

Definition is_user (a : t) : bool :=
  match type a with user => true | company => false end.

Definition is_company (a : t) : bool :=
  match type a with user => false | company => true end.

Definition other (k : kind) : kind :=
  match k with user => company | company => user end.

Definition eqb (k k' : kind) : bool :=
  match k, k' with
  | user, user | company, company => true
  | _, _ => false
  end.

End Actor.

(** models/Conversation.js *)
Module Conversation.

Record doc := Doc {
  _id : N;
  user : N;
  company : N;
  lastMessageAt : Z;
  lastMessagePreview : string;
  userUnreadCount : N;
  companyUnreadCount : N;
  archivedBy_user : bool;
  archivedBy_company : bool
}.

Definition set_lastMessageAt (t : Z) (c : doc) : doc :=
  Doc (_id c) (user c) (company c) t (lastMessagePreview c)
      (userUnreadCount c) (companyUnreadCount c)
      (archivedBy_user c) (archivedBy_company c).

Definition set_lastMessagePreview (p : string) (c : doc) : doc :=
  Doc (_id c) (user c) (company c) (lastMessageAt c) p
      (userUnreadCount c) (companyUnreadCount c)
      (archivedBy_user c) (archivedBy_company c).

Definition set_userUnreadCount (n : N) (c : doc) : doc :=
  Doc (_id c) (user c) (company c) (lastMessageAt c) (lastMessagePreview c)
      n (companyUnreadCount c)
      (archivedBy_user c) (archivedBy_company c).

Definition set_companyUnreadCount (n : N) (c : doc) : doc :=
  Doc (_id c) (user c) (company c) (lastMessageAt c) (lastMessagePreview c)
      (userUnreadCount c) n
      (archivedBy_user c) (archivedBy_company c).

(** A row inserted by the upsert: the two keys, the [$set] field and the
    schema defaults. *)
Definition fresh (id u c : N) (now : Z) : doc :=
  Doc id u c now "" 0 0 false false.

Definition has_pair (u c : N) (d : doc) : bool :=
  (user d =? u)%N && (company d =? c)%N.

Definition findById (id : N) (table : list doc) : option doc :=
  List.find (λ d, (_id d =? id)%N) table.

(** [doc.save()]: the row with the document's [_id] is written back. *)
Definition save (d : doc) (table : list doc) : list doc :=
  map (λ c, if (_id c =? _id d)%N then d else c) table.

(** Apply [f] to the first row that satisfies [q]; the updated row and
    the new table. *)
Fixpoint update_first (q : doc → bool) (f : doc → doc) (table : list doc)
  : option (doc * list doc) :=
  match table with
  | [] => None
  | d :: rest =>
      if q d then Some (f d, f d :: rest)
      else match update_first q f rest with
           | Some (r, rest') => Some (r, d :: rest')
           | None => None
           end
  end.

(** [findOneAndUpdate({user, company}, {$setOnInsert: {user, company},
    $set: {lastMessageAt: now}}, {upsert: true, new: true})]: the row
    returned, the new table, and whether a row was inserted (with [_id]
    [id]). *)
Definition findOneAndUpdate (u c : N) (now : Z) (id : N) (table : list doc)
  : doc * list doc * bool :=
  match update_first (has_pair u c) (set_lastMessageAt now) table with
  | Some (d, table') => (d, table', false)
  | None => (fresh id u c now, table ++ [fresh id u c now], true)
  end.

End Conversation.

(** models/Message.js *)
Module Message.

Inductive kind := image | file.

Record attachment := Attachment {
  url : string;
  type : kind;
  name : string;
  size : N
}.

Record doc := Doc {
  _id : N;
  conversation : N;
  senderType : Actor.kind;
  senderUser : option N;
  senderCompany : option N;
  text : string;
  attachments : list attachment;
  deliveredAt : option Z;
  readAt : option Z;
  createdAt : Z
}.

Definition set_readAt (t : Z) (m : doc) : doc :=
  Doc (_id m) (conversation m) (senderType m) (senderUser m)
      (senderCompany m) (text m) (attachments m) (deliveredAt m) (Some t)
      (createdAt m).

(** [Message.updateMany(filter, update)] *)
Definition updateMany (q : doc → bool) (f : doc → doc) (table : list doc)
  : list doc :=
  map (λ m, if q m then f m else m) table.

End Message.

(** models/Notification.js *)
Module Notification.

Inductive kind :=
| application_submitted | application_viewed | application_accepted
| application_rejected | interview_scheduled | interview_rescheduled
| interview_reminder | interview_cancelled | message_received | job_match
| job_expired | profile_viewed | saved_job_expiring | new_job_posted
| company_response | system.

Inductive level := low | medium | high | urgent.

(** The fields of [data] the chat controller fills in. *)
Record payload := Payload {
  conversationId : option N;
  actionUrl : option string
}.

Record doc := Doc {
  _id : N;
  userId : option N;
  companyId : option N;
  type : kind;
  title : string;
  message : string;
  isRead : bool;
  data : payload;
  priority : level;
  expiresAt : option Z;
  createdAt : Z
}.

End Notification.

(** The durable store.  [userProfiles] and [companyProfiles] give the
    [fullName] and [companyName] the sender lookup of [sendMessage]
    selects, keyed by account id. *)
Record store := Store {
  conversations : list Conversation.doc;
  messages : list Message.doc;
  notifications : list Notification.doc;
  userProfiles : gmap N string;
  companyProfiles : gmap N string;
  nextId : N
}.

Definition empty_store : store := Store [] [] [] ∅ ∅ 0.

Definition with_conversations (t : list Conversation.doc) (db : store) : store :=
  Store t (messages db) (notifications db) (userProfiles db)
        (companyProfiles db) (nextId db).

Definition with_messages (t : list Message.doc) (db : store) : store :=
  Store (conversations db) t (notifications db) (userProfiles db)
        (companyProfiles db) (nextId db).

Definition with_notifications (t : list Notification.doc) (db : store) : store :=
  Store (conversations db) (messages db) t (userProfiles db)
        (companyProfiles db) (nextId db).

(** Draw the next ObjectId. *)
Definition bump (db : store) : store :=
  Store (conversations db) (messages db) (notifications db)
        (userProfiles db) (companyProfiles db) (nextId db + 1)%N.

(** ** The controllers *)

(** What a handler sends: [res.status(s).json(body)], or an error status
    with its message. *)
Inductive response (A : Type) :=
| Json (status : nat) (body : A)
| Fail (status : nat) (message : string).
Global Arguments Json {A} status body.
Global Arguments Fail {A} status message.

(** A call of an async helper returns or throws. *)
Inductive outcome (A : Type) :=
| Return (a : A)
| Throw.
Global Arguments Return {A} a.
Global Arguments Throw {A}.

Definition nonempty (s : string) : bool := negb (String.eqb s "").

Definition is_some {A} (o : option A) : bool :=
  match o with Some _ => true | None => false end.

(** controllers/notificationController.js *)
Module NotificationController.

(** [createNotification({userId, companyId, type, title, message, data,
    priority, expiresAt})].  [Notification.create] rejects an empty
    [title] or [message] (both are required strings); the socket pushes
    that follow the insert touch no table. *)
Definition createNotification (userId companyId : option N)
    (type : Notification.kind) (title message : string)
    (data : Notification.payload) (priority : Notification.level)
    (expiresAt : option Z) (now : Z) (db : store)
  : outcome (option Notification.doc) * store :=
  if negb (is_some userId) && negb (is_some companyId)
  then (Return None, db)
  else if nonempty title && nonempty message then
    let notification :=
      Notification.Doc (nextId db) userId companyId type title message
                       false data priority expiresAt now in
    (Return (Some notification),
     bump (with_notifications (notifications db ++ [notification]) db))
  else (Throw, db).

End NotificationController.

(** An uploaded file as multer hands it over in [req.file]. *)
Module Upload.

Record t := Make {
  mimetype : string;
  filename : string;
  originalname : string;
  size : N
}.

End Upload.

(** The body of the reply of [listMessages]. *)
Module Page.

Record t := Make {
  messages : list Message.doc;
  nextCursor : option N
}.

End Page.

(** controllers/chatController.js.  A handler takes the registry (read
    through [isActorOnline]), [req.actor], its parameters, the clock
    readings it makes and the store, and gives its reply and the store it
    leaves. *)
Module Chat.

(** An id field of a request body, as [!id] and [ObjectId.isValid(id)]
    sort it. *)
Inductive body_id :=
| Missing
| Malformed
| WellFormed (id : N).

Record start_body := StartBody {
  userId : body_id;
  companyId : body_id
}.

(** The [limit] of the query string: absent, or what [parseInt(limit, 10)]
    makes of it. *)
Inductive query_limit :=
| Absent
| NotANumber
| Int (n : Z).

(** [parseInt(limit, 10)] with the default [limit = 30]; [None] is NaN. *)
Definition parseInt (limit : query_limit) : option Z :=
  match limit with
  | Absent => Some 30%Z
  | NotANumber => None
  | Int n => Some n
  end.

(** [v || d] on a number. *)
Definition or_default (v : option Z) (d : Z) : Z :=
  match v with
  | Some n => if (n =? 0)%Z then d else n
  | None => d
  end.

(** [cursor.limit(n)]: zero is no limit, a negative [n] is read as [-n]. *)
Definition limit_rows {A} (n : Z) (rows : list A) : list A :=
  if (n =? 0)%Z then rows else take (Z.to_nat (Z.abs n)) rows.

Definition isUser (a : Actor.t) (convo : Conversation.doc) : bool :=
  Actor.is_user a && (Conversation.user convo =? Actor.id a)%N.

Definition isCompany (a : Actor.t) (convo : Conversation.doc) : bool :=
  Actor.is_company a && (Conversation.company convo =? Actor.id a)%N.

Definition listConversations (reg : Socket.state) (a : Actor.t) (db : store)
  : response (list (Conversation.doc * bool)) :=
  let query c :=
    if Actor.is_user a then (Conversation.user c =? Actor.id a)%N
    else (Conversation.company c =? Actor.id a)%N in
  let items :=
    Js.sort_by (λ x y, (Conversation.lastMessageAt y <? Conversation.lastMessageAt x)%Z)
               (List.filter query (conversations db)) in
  let enriched := map (λ c,
    let counterpartyType := Actor.other (Actor.type a) in
    let counterpartyId :=
      if Actor.is_user a then Js.toString (Conversation.company c)
      else Js.toString (Conversation.user c) in
    (c, Socket.isActorOnline (Actor.name counterpartyType) counterpartyId reg))
    items in
  Json 200 enriched.

Definition startConversation (reg : Socket.state) (a : Actor.t)
    (body : start_body) (now : Z) (db : store)
  : response (Conversation.doc * bool) * store :=
  let pair : response (Conversation.doc * bool) + N * N :=
    match Actor.type a with
    | Actor.user =>
        match companyId body with
        | Missing => inl (Fail 400 "companyId required")
        | Malformed => inl (Fail 400 "Invalid companyId format")
        | WellFormed c => inr (Actor.id a, c)
        end
    | Actor.company =>
        match userId body with
        | Missing => inl (Fail 400 "userId required")
        | Malformed => inl (Fail 400 "Invalid userId format")
        | WellFormed u => inr (u, Actor.id a)
        end
    end in
  match pair with
  | inl r => (r, db)
  | inr (user, company) =>
      let '(convo, table, inserted) :=
        Conversation.findOneAndUpdate user company now (nextId db)
                                      (conversations db) in
      let db := with_conversations table db in
      let db := if inserted then bump db else db in
      let counterpartyType := Actor.other (Actor.type a) in
      let counterpartyId :=
        if Actor.is_user a then Js.toString (Conversation.company convo)
        else Js.toString (Conversation.user convo) in
      let isOnline :=
        Socket.isActorOnline (Actor.name counterpartyType) counterpartyId reg in
      (Json 201 (convo, isOnline), db)
  end.

Definition listMessages (a : Actor.t) (conversationId : N)
    (cursor : option N) (limit : query_limit) (db : store)
  : response Page.t :=
  let lim := Z.min (or_default (parseInt limit) 30) 100 in
  match Conversation.findById conversationId (conversations db) with
  | None => Fail 404 "Conversation not found"
  | Some convo =>
      if negb (isUser a convo) && negb (isCompany a convo) then
        Fail 403 "Forbidden: You are not a participant in this conversation."
      else
        let query m :=
          (Message.conversation m =? conversationId)%N
          && match cursor with
             | Some c => (Message._id m <? c)%N
             | None => true
             end in
        let found :=
          limit_rows lim
            (Js.sort_by (λ x y, (Message._id y <? Message._id x)%N)
                        (List.filter query (messages db))) in
        (* [messages.reverse()] reverses the array in place, so the
           cursor is read off the reversed array *)
        let found := rev found in
        Json 200 (Page.Make found
                    match found with
                    | m :: _ => Some (Message._id m)
                    | [] => None
                    end)
  end.

(** [new Message(payload)] followed by [save()]: the schema trims [text],
    checks [maxlength: 4000] and stamps [createdAt]. *)
Definition newMessage (id conversation : N) (a : Actor.t) (text : string)
    (attachments : list Message.attachment) (deliveredAt savedAt : Z)
  : outcome Message.doc :=
  let text := Js.trim text in
  if (String.length text <=? 4000)%nat then
    Return (Message.Doc id conversation (Actor.type a)
              (if Actor.is_user a then Some (Actor.id a) else None)
              (if Actor.is_company a then Some (Actor.id a) else None)
              text attachments (Some deliveredAt) None savedAt)
  else Throw.

(** The clock is read at [now] for [deliveredAt], at [savedAt] when the
    message is saved and at [notifiedAt] when the notification is. *)
Definition sendMessage (reg : Socket.state) (a : Actor.t)
    (conversationId : N) (text : option string) (file : option Upload.t)
    (now savedAt notifiedAt : Z) (db : store)
  : response Message.doc * store :=
  match Conversation.findById conversationId (conversations db) with
  | None => (Fail 404 "Conversation not found", db)
  | Some convo =>
      if negb (isUser a convo) && negb (isCompany a convo) then
        (Fail 403 "Forbidden: You are not a participant in this conversation.", db)
      else
        let payload : option (string * list Message.attachment) :=
          match file with
          | Some f =>
              let isImage := Js.startsWith "image/" (Upload.mimetype f) in
              Some (match text with
                    | Some t => Js.slice0 4000 t
                    | None => ""
                    end,
                    [Message.Attachment
                       ("/uploads/chat/" +:+ Upload.filename f)
                       (if isImage then Message.image else Message.file)
                       (Upload.originalname f) (Upload.size f)])
          | None =>
              match text with
              | Some t =>
                  if negb (nonempty t) || (4000 <? String.length t)%nat
                  then None
                  else Some (Js.trim t, [])
              | None => None
              end
          end in
        match payload with
        | None => (Fail 400 "Invalid text", db)
        | Some (text, attachments) =>
            match newMessage (nextId db) (Conversation._id convo) a text
                             attachments now savedAt with
            | Throw => (Fail 500 "Failed to send message", db)
            | Return messageDoc =>
                let db := bump (with_messages (messages db ++ [messageDoc]) db) in
                let isSenderUser := Actor.is_user a in
                let convo :=
                  Conversation.set_lastMessageAt (Message.createdAt messageDoc) convo in
                let convo :=
                  Conversation.set_lastMessagePreview
                    (Js.slice0 200 (Message.text messageDoc)) convo in
                let convo :=
                  if isSenderUser then
                    Conversation.set_companyUnreadCount
                      (Conversation.companyUnreadCount convo + 1)%N convo
                  else
                    Conversation.set_userUnreadCount
                      (Conversation.userUnreadCount convo + 1)%N convo in
                let db :=
                  with_conversations (Conversation.save convo (conversations db)) db in
                let recipientId :=
                  if isSenderUser then Conversation.company convo
                  else Conversation.user convo in
                let recipientType :=
                  if isSenderUser then Actor.company else Actor.user in
                let isRecipientOnline :=
                  Socket.isActorOnline (Actor.name recipientType)
                                       (Js.toString recipientId) reg in
                if negb isRecipientOnline then
                  let senderName :=
                    if isSenderUser then
                      match userProfiles db !! Actor.id a with
                      | Some fullName => if nonempty fullName then fullName else "A user"
                      | None => "A user"
                      end
                    else
                      match companyProfiles db !! Actor.id a with
                      | Some companyName =>
                          if nonempty companyName then companyName else "A company"
                      | None => "A company"
                      end in
                  let messagePreview :=
                    if nonempty (Message.text messageDoc) then
                      Js.slice0 100 (Message.text messageDoc)
                      +:+ (if (100 <? String.length (Message.text messageDoc))%nat
                           then "..." else "")
                    else "Sent an attachment" in
                  match NotificationController.createNotification
                          (match recipientType with
                           | Actor.user => Some recipientId | _ => None end)
                          (match recipientType with
                           | Actor.company => Some recipientId | _ => None end)
                          Notification.message_received
                          ("New message from " +:+ senderName)
                          messagePreview
                          (Notification.Payload
                             (Some (Conversation._id convo))
                             (Some match recipientType with
                                   | Actor.company => "/company/chat"
                                   | Actor.user => "/chat"
                                   end))
                          Notification.medium None notifiedAt db with
                  | (Throw, db) => (Fail 500 "Failed to send message", db)
                  | (Return _, db) => (Json 201 messageDoc, db)
                  end
                else (Json 201 messageDoc, db)
            end
        end
  end.

Definition markRead (a : Actor.t) (conversationId : N) (now : Z) (db : store)
  : response unit * store :=
  match Conversation.findById conversationId (conversations db) with
  | None => (Fail 404 "Conversation not found", db)
  | Some convo =>
      let isUser := Actor.is_user a in
      let isMember :=
        (isUser && (Conversation.user convo =? Actor.id a)%N)
        || (negb isUser && (Conversation.company convo =? Actor.id a)%N) in
      if negb isMember then (Fail 403 "Not allowed", db)
      else
        let filter m :=
          (Message.conversation m =? conversationId)%N
          && match Message.readAt m with None => true | Some _ => false end
          && Actor.eqb (Message.senderType m)
                       (if isUser then Actor.company else Actor.user) in
        let db :=
          with_messages
            (Message.updateMany filter (Message.set_readAt now) (messages db)) db in
        let convo :=
          if isUser then Conversation.set_userUnreadCount 0 convo
          else Conversation.set_companyUnreadCount 0 convo in
        let db :=
          with_conversations (Conversation.save convo (conversations db)) db in
        (Json 200 tt, db)
  end.

Definition presence (type id : string) (reg : Socket.state) : response bool :=
  if String.eqb type "user" || String.eqb type "company"
  then Json 200 (Socket.isActorOnline type id reg)
  else Fail 400 "Invalid type".

End Chat.

(** ** Reference notions the properties are stated against *)

Module Presence.

Import Socket.

(** The principal a register payload names: a plain string is a user's
    id, an object names its own type and id. *)
Definition principal_of (p : payload) : option (string * string) :=
  match p with
  | PString id => Some ("user", id)
  | PObject type id =>
      if truthy id && truthy type then Some (type, id) else None
  | POther => None
  end.

(** Two references to the same principal: company or not, and the id. *)
Definition same_principal (type id type' id' : string) : Prop :=
  String.eqb type "company" = String.eqb type' "company" ∧ id = id'.

(** The handle [sid] is live for the principal after the run [ops]: some
    registration of [sid] for that principal has no disconnection of [sid]
    after it. *)
Definition live (ops : list op) (type id sid : string) : Prop :=
  ∃ before p after type' id',
    ops = before ++ Register sid p :: after
    ∧ principal_of p = Some (type', id')
    ∧ same_principal type' id' type id
    ∧ Disconnect sid ∉ after.

(** [sid] is in the set the registry holds under [k]. *)
Definition member (st : state) (k sid : string) : Prop :=
  ∃ set, connectedUsers st !! k = Some set ∧ sid ∈ set.

(** Membership in the registry after a run, read off the run itself. *)
Definition live_key (ops : list op) (k sid : string) : Prop :=
  ∃ before p after info,
    ops = before ++ Register sid p :: after
    ∧ resolve p = Some info ∧ actorKey info = k
    ∧ Disconnect sid ∉ after.

(** What the loop of the disconnect handler has done once it has visited
    the entries [m], starting from the map [m0]. *)
Definition disconnect_post (sid : string) (me : option actor_info)
    (m0 : gmap string (gset string))
    (r : gmap string (gset string) * list emission)
    (m : gmap string (gset string)) : Prop :=
  (∀ k, r.1 !! k =
        match m !! k with
        | Some set =>
            if decide (size (set ∖ {[sid]}) = 0) then None
            else Some (set ∖ {[sid]})
        | None => m0 !! k
        end)
  ∧ r.2 =
    match me with
    | Some info =>
        match m !! actorKey info with
        | Some set =>
            if decide (size (set ∖ {[sid]}) = 0) then
              if truthy (actorType info) && truthy (actorId info)
              then [UserOffline (actorType info) (actorId info)] else []
            else []
        | None => []
        end
    | None => []
    end.

(** The claim that a registration broadcasts only on a transition from
    no handle. *)
Definition online_only_on_transition : Prop :=
  ∀ st sid p type id,
    UserOnline type id ∈ (register sid p st).2 →
    isActorOnline type id st = false.

End Presence.

(** Reference notions for the chat controller. *)
Module ChatSpec.

(** The actor is one of the two parties of the conversation. *)
Definition participant (a : Actor.t) (convo : Conversation.doc) : Prop :=
  (Actor.type a = Actor.user ∧ Actor.id a = Conversation.user convo)
  ∨ (Actor.type a = Actor.company ∧ Actor.id a = Conversation.company convo).

(** The messages of a conversation, oldest first. *)
Definition history (conversationId : N) (db : store) : list Message.doc :=
  List.filter (λ m, (Message.conversation m =? conversationId)%N) (messages db).

(** Message ids grow along the table, and the counter is ahead of them. *)
Definition ids_increase (db : store) : Prop :=
  StronglySorted (λ x y, (Message._id x < Message._id y)%N) (messages db)
  ∧ Forall (λ m, (Message._id m < nextId db)%N) (messages db).

(** The key of the unique index of a row, and the id of the row that
    holds a pair. *)
Definition pair (d : Conversation.doc) : N * N :=
  (Conversation.user d, Conversation.company d).



(** The text a request is stored with, when it is accepted. *)
Definition stored_text (text : option string) (file : option Upload.t)
  : option string :=
  match file with
  | Some _ => Some (Js.trim (Js.slice0 4000 (default "" text)))
  | None =>
      match text with
      | Some t =>
          if nonempty t && (String.length t <=? 4000)%nat
          then Some (Js.trim t) else None
      | None => None
      end
  end.

Definition attachments_of (file : option Upload.t) : list Message.attachment :=
  match file with
  | Some f =>
      [Message.Attachment
         ("/uploads/chat/" +:+ Upload.filename f)
         (if Js.startsWith "image/" (Upload.mimetype f)
          then Message.image else Message.file)
         (Upload.originalname f) (Upload.size f)]
  | None => []
  end.

(** The recipient of a message of [a] in [convo], and whether the
    registry has a handle for it. *)
Definition recipient (a : Actor.t) (convo : Conversation.doc) : Actor.t :=
  if Actor.is_user a
  then Actor.Make Actor.company (Conversation.company convo)
  else Actor.Make Actor.user (Conversation.user convo).

Definition online (reg : Socket.state) (r : Actor.t) : bool :=
  Socket.isActorOnline (Actor.name (Actor.type r)) (Js.toString (Actor.id r)) reg.

(** The conversation row after a message of [a]. *)
Definition touched (a : Actor.t) (m : Message.doc) (convo : Conversation.doc)
  : Conversation.doc :=
  Conversation.Doc
    (Conversation._id convo) (Conversation.user convo)
    (Conversation.company convo) (Message.createdAt m)
    (Js.slice0 200 (Message.text m))
    (if Actor.is_user a then Conversation.userUnreadCount convo
     else (Conversation.userUnreadCount convo + 1)%N)
    (if Actor.is_user a then (Conversation.companyUnreadCount convo + 1)%N
     else Conversation.companyUnreadCount convo)
    (Conversation.archivedBy_user convo)
    (Conversation.archivedBy_company convo).

Definition sender_name (a : Actor.t) (db : store) : string :=
  if Actor.is_user a then
    match userProfiles db !! Actor.id a with
    | Some fullName => if nonempty fullName then fullName else "A user"
    | None => "A user"
    end
  else
    match companyProfiles db !! Actor.id a with
    | Some companyName => if nonempty companyName then companyName else "A company"
    | None => "A company"
    end.

(** The preview a notification carries for a stored text. *)
Definition notification_preview (text : string) : string :=
  if nonempty text then
    Js.slice0 100 text +:+ (if (100 <? String.length text)%nat then "..." else "")
  else "Sent an attachment".

(** The record the fallback adds for a message of [a]. *)
Definition fallback (a : Actor.t) (convo : Conversation.doc) (m : Message.doc)
    (id : N) (notifiedAt : Z) (db : store) : Notification.doc :=
  Notification.Doc id
    (if Actor.is_user a then None else Some (Conversation.user convo))
    (if Actor.is_user a then Some (Conversation.company convo) else None)
    Notification.message_received
    ("New message from " +:+ sender_name a db)
    (notification_preview (Message.text m))
    false
    (Notification.Payload (Some (Conversation._id convo))
       (Some (if Actor.is_user a then "/company/chat" else "/chat")))
    Notification.medium None notifiedAt.

(** The query of [markRead]: unread messages of the conversation written
    by the other side. *)
Definition unread_from_other (a : Actor.t) (conversationId : N)
    (m : Message.doc) : bool :=
  (Message.conversation m =? conversationId)%N
  && match Message.readAt m with None => true | Some _ => false end
  && Actor.eqb (Message.senderType m) (Actor.other (Actor.type a)).

(** The client of the pagination property: ask without a cursor, then
    with each cursor returned, until a reply carries none; every page goes
    in front of the ones fetched before it. *)
Fixpoint fetch_history (fuel : nat) (a : Actor.t) (conversationId : N)
    (limit : Chat.query_limit) (db : store) (cursor : option N)
    (newer : list Message.doc) : option (list Message.doc) :=
  match fuel with
  | O => None
  | S fuel =>
      match Chat.listMessages a conversationId cursor limit db with
      | Json _ page =>
          match Page.nextCursor page with
          | Some c =>
              fetch_history fuel a conversationId limit db (Some c)
                            (Page.messages page ++ newer)
          | None => Some (Page.messages page ++ newer)
          end
      | Fail _ _ => None
      end
  end.

(** The size of a page the claim promises for a [limit]. *)
Definition page_bound (limit : Chat.query_limit) : Z :=
  match limit with
  | Chat.Int n => if (n =? 0)%Z then 30 else Z.min n 100
  | _ => 30
  end.

(** The part of the history a cursor leaves to fetch. *)
Definition remaining (conversationId : N) (db : store) (cursor : option N)
  : list Message.doc :=
  match cursor with
  | Some c =>
      List.filter (λ m : Message.doc, (Message._id m <? c)%N) (history conversationId db)
  | None => history conversationId db
  end.

(** The limit the controller hands to the query. *)
Definition lim_of (limit : Chat.query_limit) : Z :=
  Z.min (Chat.or_default (Chat.parseInt limit) 30) 100.

(** A [limit] that is absent, not a number, zero or positive. *)
Definition not_negative (limit : Chat.query_limit) : Prop :=
  match limit with Chat.Int n => (0 <= n)%Z | _ => True end.

(** A call of [startConversation]: the registry and the clock at the
    time, the actor and the body. *)
Record start_call := StartCall {
  registry : Socket.state;
  caller : Actor.t;
  body : Chat.start_body;
  clock : Z
}.

(** The pair a call is about, when its body is well formed. *)
Definition pair_of (c : start_call) : option (N * N) :=
  match Actor.type (caller c) with
  | Actor.user =>
      match Chat.companyId (body c) with
      | Chat.WellFormed company => Some (Actor.id (caller c), company)
      | _ => None
      end
  | Actor.company =>
      match Chat.userId (body c) with
      | Chat.WellFormed user => Some (user, Actor.id (caller c))
      | _ => None
      end
  end.


End ChatSpec.

(** ** socket.js, the delivery helpers *)

Module Delivery.

Import Socket.

(** What a helper hands to Socket.IO: an event for one socket, for a room
    or for everybody.  The payload travels unchanged and is left out. *)
Inductive push :=
| ToSocket (sid : string) (event : string)
| ToRoom (room : string) (event : string)
| ToAll (event : string).

(** The two fields of a chat payload that [emitChatEvent] reads: an
    absent [conversationId] is the empty string, an absent
    [message.senderType] is [None]. *)
Record chat_payload := ChatPayload {
  conversationId : string;
  senderType : option string
}.

(** [for (const sid of socketSet) ioInstance.to(sid).emit(event, ..)] *)
Definition to_each (event : string) (socketSet : gset string) : list push :=
  map (λ sid, ToSocket sid event) (elements socketSet).

(** [emitNotification(userId, notification)]; [io] tells whether
    [initSocket] has run. *)
Definition emitNotification (io : bool) (userId : string) (st : state)
  : list push :=
  if negb io then []
  else
    match connectedUsers st !! keyForActor "user" userId with
    | Some socketSet => to_each "notification" socketSet
    | None => []
    end.

(** [emitJobUpdate(update)] *)
Definition emitJobUpdate (io : bool) : list push :=
  if negb io then [] else [ToAll "jobUpdate"].

(** [emitChatEvent(event, userId, companyId, payload)] *)
Definition emitChatEvent (io : bool) (event userId companyId : string)
    (payload : chat_payload) (st : state) : list push :=
  if negb io then []
  else
    let userKey := keyForActor "user" userId in
    let companyKey := keyForActor "company" companyId in
    let direct :=
      flat_map (λ key,
                  match connectedUsers st !! key with
                  | None => []
                  | Some socketSet => to_each event socketSet
                  end) [userKey; companyKey] in
    let emittedCount := length direct in
    let room :=
      if truthy (conversationId payload)
      then [ToRoom ("conversation:" +:+ conversationId payload) event]
      else [] in
    let fallback :=
      if bool_decide (senderType payload = Some "user")
         && (emittedCount =? 0)%nat && truthy userId
      then
        match connectedUsers st !! userKey with
        | Some altSet => to_each event altSet
        | None => []
        end
      else [] in
    direct ++ room ++ fallback.

(** [emitToActor(actorType, actorId, event, data)] *)
Definition emitToActor (io : bool) (actorType actorId event : string)
  : list push :=
  if io then [ToRoom (keyForActor actorType actorId) event] else [].

(** [s.split(":")] *)
Fixpoint split_colon (s : string) : list string :=
  match s with
  | EmptyString => [EmptyString]
  | String c s' =>
      if Ascii.eqb c ":" then EmptyString :: split_colon s'
      else
        match split_colon s' with
        | h :: t => String c h :: t
        | [] => [String c EmptyString]
        end
  end.

(** An entry of the list of [getAllOnlineActors]; [id] is [None] when the
    key has no colon. *)
Record online_actor := OnlineActor {
  type : string;
  id : option string
}.

(** [getAllOnlineActors()].  The entries come in the order of the map,
    which the finite map does not keep. *)
Definition getAllOnlineActors (st : state) : list online_actor :=
  omap (λ '(key, socketSet),
          if bool_decide (0 < size socketSet) then
            let parts := split_colon key in
            Some (OnlineActor
                    (if String.eqb (default "" (parts !! 0)) "c"
                     then "company" else "user")
                    (parts !! 1))
          else None)
       (map_to_list (connectedUsers st)).



Global Instance push_eq_dec : EqDecision push.
Proof. solve_decision. Defined.

End Delivery.

(** ** controllers/notificationController.js, the handlers *)

Module Notifications.

(** The ids of [req.user] and [req.company], each present or not. *)
Record requester := Requester {
  user : option N;
  company : option N
}.

(** [isCompany], [actorType] and [actorId] of a handler; [None] is the
    401 reply. *)
Definition actor (r : requester) : option Actor.t :=
  match company r with
  | Some c => Some (Actor.Make Actor.company c)
  | None =>
      match user r with
      | Some u => Some (Actor.Make Actor.user u)
      | None => None
      end
  end.

Definition eq_id (o : option N) (id : N) : bool :=
  match o with Some i => (i =? id)%N | None => false end.

(** [{ companyId: actorId }] or [{ userId: actorId }] *)
Definition owned (a : Actor.t) (n : Notification.doc) : bool :=
  match Actor.type a with
  | Actor.company => eq_id (Notification.companyId n) (Actor.id a)
  | Actor.user => eq_id (Notification.userId n) (Actor.id a)
  end.

Definition unread (a : Actor.t) (n : Notification.doc) : bool :=
  owned a n && negb (Notification.isRead n).

(** [Notification.countDocuments(query)] *)
Definition countDocuments (q : Notification.doc → bool)
    (table : list Notification.doc) : N :=
  N.of_nat (length (List.filter q table)).

Definition set_isRead (b : bool) (n : Notification.doc) : Notification.doc :=
  Notification.Doc (Notification._id n) (Notification.userId n)
    (Notification.companyId n) (Notification.type n) (Notification.title n)
    (Notification.message n) b (Notification.data n)
    (Notification.priority n) (Notification.expiresAt n)
    (Notification.createdAt n).

(** [doc.save()] *)
Definition save (d : Notification.doc) (table : list Notification.doc)
  : list Notification.doc :=
  map (λ n, if (Notification._id n =? Notification._id d)%N then d else n)
      table.

(** [Notification.deleteOne(query)]: the first match goes. *)
Fixpoint deleteOne (q : Notification.doc → bool)
    (table : list Notification.doc) : list Notification.doc :=
  match table with
  | [] => []
  | n :: rest => if q n then rest else n :: deleteOne q rest
  end.

(** The stored value of [priority]. *)
Definition priority_name (p : Notification.level) : string :=
  match p with
  | Notification.low => "low"
  | Notification.medium => "medium"
  | Notification.high => "high"
  | Notification.urgent => "urgent"
  end.

(** [sort({ priority: -1, createdAt: -1 })]: the store compares the
    priorities as the strings they are. *)
Definition listed_before (x y : Notification.doc) : bool :=
  String.ltb (priority_name (Notification.priority y))
             (priority_name (Notification.priority x))
  || (String.eqb (priority_name (Notification.priority y))
                 (priority_name (Notification.priority x))
      && (Notification.createdAt y <? Notification.createdAt x)%Z).

Definition getUserNotifications (r : requester) (db : store)
  : response (list Notification.doc) :=
  match actor r with
  | None => Fail 401 "Unauthorized"
  | Some a =>
      Json 200 (Js.sort_by listed_before
                           (List.filter (owned a) (notifications db)))
  end.

Definition getUnreadCount (r : requester) (db : store) : response N :=
  match actor r with
  | None => Fail 401 "Unauthorized"
  | Some a => Json 200 (countDocuments (unread a) (notifications db))
  end.

(** The reply carries [unreadCount]. *)
Definition markAsRead (r : requester) (id : N) (db : store)
  : response N * store :=
  match actor r with
  | None => (Fail 401 "Unauthorized", db)
  | Some a =>
      match List.find (λ n, (Notification._id n =? id)%N && owned a n)
                      (notifications db) with
      | None => (Fail 404 "Notification not found", db)
      | Some notification =>
          let notification := set_isRead true notification in
          let db :=
            with_notifications (save notification (notifications db)) db in
          let unreadCount := countDocuments (unread a) (notifications db) in
          (Json 200 unreadCount, db)
      end
  end.

Definition markAllAsRead (r : requester) (db : store)
  : response unit * store :=
  match actor r with
  | None => (Fail 401 "Unauthorized", db)
  | Some a =>
      (Json 200 tt,
       with_notifications
         (map (λ n, if unread a n then set_isRead true n else n)
              (notifications db)) db)
  end.

(** [clearAllNotifications]; [id] is [req.body.id], [None] when it is
    absent.  The reply to a deletion by id carries [unreadCount]. *)
Definition clearAllNotifications (r : requester) (id : option N) (db : store)
  : response (option N) * store :=
  match actor r with
  | None => (Fail 401 "Unauthorized", db)
  | Some a =>
      match id with
      | Some id =>
          let db :=
            with_notifications
              (deleteOne (λ n, (Notification._id n =? id)%N && owned a n)
                         (notifications db)) db in
          (Json 200 (Some (countDocuments (unread a) (notifications db))), db)
      | None =>
          (Json 200 None,
           with_notifications
             (List.filter (λ n, negb (owned a n)) (notifications db)) db)
      end
  end.

End Notifications.

(** ** The cascading deletions of the models *)

Module Cascade.

(** [Conversation.findOneAndDelete({ _id })]: the hook of
    models/Conversation.js removes the messages of the conversation, then
    the row goes. *)
Fixpoint remove_first (q : Conversation.doc → bool)
    (table : list Conversation.doc) : list Conversation.doc :=
  match table with
  | [] => []
  | c :: rest => if q c then rest else c :: remove_first q rest
  end.

Definition deleteConversation (conversationId : N) (db : store) : store :=
  let db :=
    with_messages
      (List.filter (λ m, negb (Message.conversation m =? conversationId)%N)
                   (messages db)) db in
  with_conversations
    (remove_first (λ c, (Conversation._id c =? conversationId)%N)
                  (conversations db)) db.

(** [{ conversation: { $in: conversationIds } }] *)
Definition in_ids (ids : list N) (m : Message.doc) : bool :=
  existsb (λ i, (Message.conversation m =? i)%N) ids.

(** The hooks of the User model, on the tables of the store: the profile,
    the conversations of the user with their messages, and the
    notifications addressed to the user. *)
Definition deleteUser (userId : N) (db : store) : store :=
  let profiles := delete userId (userProfiles db) in
  let conversationIds :=
    map Conversation._id
        (List.filter (λ c, (Conversation.user c =? userId)%N)
                     (conversations db)) in
  let msgs :=
    List.filter (λ m, negb (in_ids conversationIds m)) (messages db) in
  let convs :=
    List.filter (λ c, negb (Conversation.user c =? userId)%N)
                (conversations db) in
  let notifs :=
    List.filter (λ n, negb (Notifications.eq_id (Notification.userId n) userId))
                (notifications db) in
  Store convs msgs notifs profiles (companyProfiles db) (nextId db).

(** The hooks of the Company model, likewise. *)
Definition deleteCompany (companyId : N) (db : store) : store :=
  let profiles := delete companyId (companyProfiles db) in
  let conversationIds :=
    map Conversation._id
        (List.filter (λ c, (Conversation.company c =? companyId)%N)
                     (conversations db)) in
  let msgs :=
    if (0 <? length conversationIds)%nat then
      List.filter (λ m, negb (in_ids conversationIds m)) (messages db)
    else messages db in
  let convs :=
    List.filter (λ c, negb (Conversation.company c =? companyId)%N)
                (conversations db) in
  let notifs :=
    List.filter
      (λ n, negb (Notifications.eq_id (Notification.companyId n) companyId))
      (notifications db) in
  Store convs msgs notifs (userProfiles db) profiles (nextId db).

End Cascade.

(** ** Requests that write to the store *)

Module Server.

Inductive request :=
| StartConversation (reg : Socket.state) (a : Actor.t)
    (body : Chat.start_body) (now : Z)
| SendMessage (reg : Socket.state) (a : Actor.t) (conversationId : N)
    (text : option string) (file : option Upload.t)
    (now savedAt notifiedAt : Z)
| MarkRead (a : Actor.t) (conversationId : N) (now : Z)
| MarkAsRead (r : Notifications.requester) (id : N)
| MarkAllAsRead (r : Notifications.requester)
| ClearAllNotifications (r : Notifications.requester) (id : option N)
| DeleteConversation (conversationId : N)
| DeleteUser (userId : N)
| DeleteCompany (companyId : N).

(** The store a request leaves. *)
Definition handle (db : store) (r : request) : store :=
  match r with
  | StartConversation reg a body now =>
      (Chat.startConversation reg a body now db).2
  | SendMessage reg a conversationId text file now savedAt notifiedAt =>
      (Chat.sendMessage reg a conversationId text file now savedAt
                        notifiedAt db).2
  | MarkRead a conversationId now => (Chat.markRead a conversationId now db).2
  | MarkAsRead r id => (Notifications.markAsRead r id db).2
  | MarkAllAsRead r => (Notifications.markAllAsRead r db).2
  | ClearAllNotifications r id =>
      (Notifications.clearAllNotifications r id db).2
  | DeleteConversation conversationId =>
      Cascade.deleteConversation conversationId db
  | DeleteUser userId => Cascade.deleteUser userId db
  | DeleteCompany companyId => Cascade.deleteCompany companyId db
  end.

Definition serve (db : store) (rs : list request) : store :=
  fold_left handle rs db.

End Server.

(** ** Reference notions for the properties of the helpers and handlers *)

Module Extra.

Import Socket.

Global Instance kind_eq_dec : EqDecision Actor.kind.
Proof. solve_decision. Defined.

Global Instance actor_eq_dec : EqDecision Actor.t.
Proof. solve_decision. Defined.

(** The sockets the registry holds for a key; none when the key is
    absent. *)
Definition sockets_of (st : state) (key : string) : gset string :=
  default ∅ (connectedUsers st !! key).

(** The part of an id before its first colon. *)
Definition first_segment (id : string) : string :=
  default "" (head (Delivery.split_colon id)).

Definition has_colon (id : string) : bool :=
  existsb (λ c, Ascii.eqb c ":") (String.list_ascii_of_string id).

(** How often a push occurs in a list of pushes. *)
Definition pushed (p : Delivery.push) (l : list Delivery.push) : nat :=
  length (List.filter (λ q, bool_decide (q = p)) l).

(** No key of the registry holds an empty set. *)
Definition no_empty_set (st : state) : Prop :=
  ∀ k set, connectedUsers st !! k = Some set → set ≠ ∅.

(** A message written by the side it names, in a conversation. *)
Definition party_ok (c : Conversation.doc) (m : Message.doc) : Prop :=
  Message.conversation m = Conversation._id c
  ∧ match Message.senderType m with
    | Actor.user =>
        Message.senderUser m = Some (Conversation.user c)
        ∧ Message.senderCompany m = None
    | Actor.company =>
        Message.senderCompany m = Some (Conversation.company c)
        ∧ Message.senderUser m = None
    end.

(** Conversation ids are unique and behind the counter, and every
    message belongs to a conversation of the store. *)
Definition referential (db : store) : Prop :=
  NoDup (map Conversation._id (conversations db))
  ∧ Forall (λ c, (Conversation._id c < nextId db)%N) (conversations db)
  ∧ Forall (λ m, ∃ c, c ∈ conversations db ∧ party_ok c m) (messages db).




(** The preview the newest message of a conversation gives. *)
Definition preview_of (cid : N) (db : store) : string :=
  match last (ChatSpec.history cid db) with
  | Some m => Js.slice0 200 (Message.text m)
  | None => ""
  end.

Definition previews_match (db : store) : Prop :=
  ∀ c, c ∈ conversations db →
    Conversation.lastMessagePreview c = preview_of (Conversation._id c) db.

(** A notification as the chat fallback writes them. *)
Definition chat_notification (n : Notification.doc) : Prop :=
  xorb (is_some (Notification.userId n)) (is_some (Notification.companyId n))
  = true
  ∧ Notification.type n = Notification.message_received
  ∧ Notification.priority n = Notification.medium
  ∧ nonempty (Notification.title n) = true
  ∧ nonempty (Notification.message n) = true.

(** The order of [getUserNotifications]: [x] may come before [y]. *)
Definition listed_le (x y : Notification.doc) : Prop :=
  Notifications.listed_before y x = false.

(** The place of a priority in the order of the stored names:
    ["high" < "low" < "medium" < "urgent"]. *)
Definition priority_rank (p : Notification.level) : Z :=
  match p with
  | Notification.high => 0
  | Notification.low => 1
  | Notification.medium => 2
  | Notification.urgent => 3
  end.


(** [n'] is the row [n] as a request leaves it: untouched, or a row of
    the same id marked read. *)
Definition marked (db : store) (n' n : Notification.doc) : Prop :=
  n' = n
  ∨ ∃ n0, n0 ∈ notifications db
          ∧ Notification._id n0 = Notification._id n
          ∧ n' = Notifications.set_isRead true n0.

(** What a request does to the conversations and the messages. *)
Inductive effect (db db' : store) : Prop :=
| effect_none :
    conversations db' = conversations db →
    messages db' = messages db →
    (nextId db <= nextId db')%N →
    effect db db'
| effect_touch before d after now :
    conversations db = before ++ d :: after →
    conversations db'
    = before ++ Conversation.set_lastMessageAt now d :: after →
    messages db' = messages db →
    nextId db' = nextId db →
    effect db db'
| effect_insert u c now :
    conversations db'
    = conversations db ++ [Conversation.fresh (nextId db) u c now] →
    messages db' = messages db →
    nextId db' = (nextId db + 1)%N →
    effect db db'
| effect_send a convo m :
    Conversation.findById (Message.conversation m) (conversations db)
    = Some convo →
    ChatSpec.participant a convo →
    Message._id m = nextId db →
    Message.senderType m = Actor.type a →
    Message.senderUser m
    = (if Actor.is_user a then Some (Actor.id a) else None) →
    Message.senderCompany m
    = (if Actor.is_company a then Some (Actor.id a) else None) →
    Message.readAt m = None →
    conversations db'
    = Conversation.save (ChatSpec.touched a m convo) (conversations db) →
    messages db' = messages db ++ [m] →
    (nextId db < nextId db')%N →
    effect db db'
| effect_read a conversationId convo now :
    Conversation.findById conversationId (conversations db) = Some convo →
    ChatSpec.participant a convo →
    conversations db'
    = Conversation.save
        (if Actor.is_user a then Conversation.set_userUnreadCount 0 convo
         else Conversation.set_companyUnreadCount 0 convo)
        (conversations db) →
    messages db'
    = Message.updateMany (ChatSpec.unread_from_other a conversationId)
                         (Message.set_readAt now) (messages db) →
    nextId db' = nextId db →
    effect db db'
| effect_delete (gone : N → bool) :
    conversations db'
    = List.filter (λ c, negb (gone (Conversation._id c))) (conversations db) →
    messages db'
    = List.filter (λ m, negb (gone (Message.conversation m))) (messages db) →
    nextId db' = nextId db →
    effect db db'.

End Extra.

(** * Properties *)

(** ** The connection registry *)

Section registry.

Import Socket Presence.

Implicit Types (st : state) (sid k : string) (p : payload).

Lemma register_lookup st sid p k :
  connectedUsers (register sid p st).1 !! k =
  match resolve p with
  | Some info =>
      if decide (actorKey info = k)
      then Some (default ∅ (connectedUsers st !! k) ∪ {[sid]})
      else connectedUsers st !! k
  | None => connectedUsers st !! k
  end.
Proof.
  unfold register. destruct (resolve p) as [info|]; [|done]. simpl.
  destruct (decide (actorKey info = k)) as [<-|Hne].
  - destruct (connectedUsers st !! actorKey info) as [set|] eqn:E.
    + by rewrite lookup_alter_eq, E.
    + by rewrite lookup_alter_eq, lookup_insert_eq.
  - rewrite lookup_alter_ne by done.
    destruct (connectedUsers st !! actorKey info); [done|].
    by rewrite lookup_insert_ne.
Qed.

Lemma disconnect_fold sid me (m0 m : gmap string (gset string)) :
  disconnect_post sid me m0
    (map_fold (disconnect_entry sid me) (m0, []) m) m.
Proof.
  apply (map_fold_weak_ind (disconnect_post sid me m0)).
  - split; [intros k; by rewrite lookup_empty|].
    destruct me; [by rewrite lookup_empty|done].
  - intros i x m' r Hi [IH1 IH2]. split.
    + intros k. unfold disconnect_entry.
      destruct (decide (i = k)) as [->|Hne].
      * rewrite lookup_insert_eq.
        destruct (decide (size (x ∖ {[sid]}) = 0)); simpl.
        -- by rewrite lookup_delete_eq.
        -- by rewrite lookup_insert_eq.
      * rewrite lookup_insert_ne by done.
        destruct (decide (size (x ∖ {[sid]}) = 0)); simpl.
        -- rewrite lookup_delete_ne by done. apply IH1.
        -- rewrite lookup_insert_ne by done. apply IH1.
    + unfold disconnect_entry.
      destruct me as [info|].
      * destruct (decide (i = actorKey info)) as [->|Hne].
        -- rewrite lookup_insert_eq. rewrite Hi in IH2.
           destruct (decide (size (x ∖ {[sid]}) = 0)); simpl; [|done].
           rewrite IH2, String.eqb_refl. simpl.
           by destruct (truthy (actorType info) && truthy (actorId info)).
        -- rewrite lookup_insert_ne by done.
           destruct (decide (size (x ∖ {[sid]}) = 0)); simpl; [|done].
           assert (String.eqb i (actorKey info) = false) as ->
             by by apply String.eqb_neq.
           done.
      * by destruct (decide (size (x ∖ {[sid]}) = 0)).
Qed.

Lemma disconnect_lookup st sid k :
  connectedUsers (disconnect sid st).1 !! k =
  match connectedUsers st !! k with
  | Some set =>
      if decide (size (set ∖ {[sid]}) = 0) then None
      else Some (set ∖ {[sid]})
  | None => None
  end.
Proof.
  unfold disconnect. simpl.
  destruct (disconnect_fold sid (sockets st !! sid)
              (connectedUsers st) (connectedUsers st)) as [H _].
  rewrite H. by destruct (connectedUsers st !! k).
Qed.

Lemma disconnect_emits st sid :
  (disconnect sid st).2 =
  match sockets st !! sid with
  | Some info =>
      match connectedUsers st !! actorKey info with
      | Some set =>
          if decide (size (set ∖ {[sid]}) = 0) then
            if truthy (actorType info) && truthy (actorId info)
            then [UserOffline (actorType info) (actorId info)] else []
          else []
      | None => []
      end
  | None => []
  end.
Proof.
  unfold disconnect. simpl.
  by destruct (disconnect_fold sid (sockets st !! sid)
                 (connectedUsers st) (connectedUsers st)) as [_ ->].
Qed.

Lemma resolve_principal p info :
  resolve p = Some info →
  principal_of p = Some (actorType info, actorId info)
  ∧ actorKey info = keyForActor (actorType info) (actorId info).
Proof.
  destruct p as [id|type id|]; simpl; [| |done].
  - by intros [= <-].
  - destruct (truthy id && truthy type); [|done]. by intros [= <-].
Qed.

Lemma principal_resolve p type id :
  principal_of p = Some (type, id) →
  resolve p = Some (ActorInfo (keyForActor type id) type id).
Proof.
  destruct p as [i|t i|]; simpl; [| |done].
  - by intros [= <- <-].
  - destruct (truthy i && truthy t); [|done]. by intros [= <- <-].
Qed.

(** The key separates the two identity spaces and nothing else. *)
Lemma keyForActor_inj type id type' id' :
  keyForActor type id = keyForActor type' id' ↔ same_principal type id type' id'.
Proof.
  unfold keyForActor, same_principal.
  destruct (String.eqb type "company"), (String.eqb type' "company");
    simpl; (split; [intros H; by simplify_eq|intros [? ->]; done]).
Qed.

Lemma member_register st sid p k s :
  member (register sid p st).1 k s ↔
  member st k s ∨ (s = sid ∧ ∃ info, resolve p = Some info ∧ actorKey info = k).
Proof.
  unfold member. rewrite register_lookup.
  destruct (resolve p) as [info|].
  - destruct (decide (actorKey info = k)) as [Hk|Hk].
    + split.
      * intros (set & [= <-] & Hin).
        apply elem_of_union in Hin as [Hin|Hin%elem_of_singleton].
        -- left. destruct (connectedUsers st !! k) as [set|]; [by eexists|].
           simpl in Hin. set_solver.
        -- right. eauto.
      * intros [(set & -> & Hin)|(-> & _)]; eexists; (split; [done|]);
          set_solver.
    + split; [by left|]. intros [?|(_ & info' & [= <-] & ?)]; done.
  - split; [by left|]. intros [?|(_ & ? & ? & _)]; done.
Qed.

Lemma member_disconnect st sid k s :
  member (disconnect sid st).1 k s ↔ member st k s ∧ s ≠ sid.
Proof.
  unfold member. rewrite disconnect_lookup.
  destruct (connectedUsers st !! k) as [set|].
  - destruct (decide (size (set ∖ {[sid]}) = 0)) as [He|Hne].
    + apply size_empty_inv in He. split.
      * by intros (? & ? & _).
      * intros [(? & [= <-] & Hin) Hs]. set_solver.
    + split.
      * intros (? & [= <-] & Hin).
        apply elem_of_difference in Hin as [Hin Hs]. split; [by eexists|].
        set_solver.
      * intros [(? & [= <-] & Hin) Hs]. eexists. split; [done|]. set_solver.
  - split; [by intros (? & ? & _)|by intros [(? & ? & _) _]].
Qed.

Lemma isActorOnline_member st type id :
  isActorOnline type id st = true ↔ ∃ s, member st (keyForActor type id) s.
Proof.
  unfold isActorOnline, member.
  destruct (connectedUsers st !! keyForActor type id) as [set|].
  - rewrite bool_decide_eq_true. split.
    + intros Hs. destruct (set_choose_L set) as [x Hx].
      { intros ->. rewrite size_empty in Hs. lia. }
      eauto.
    + intros (s & ? & [= <-] & Hin).
      destruct (decide (size set = 0)) as [He%size_empty_inv|]; [|lia].
      set_solver.
  - split; [done|]. by intros (? & ? & ? & _).
Qed.

Lemma run_snoc st ops o :
  run st (ops ++ [o]) =
  let r := run st ops in
  let r' := step r.1 o in
  (r'.1, r.2 ++ r'.2).
Proof.
  revert st. induction ops as [|o' ops IH]; intros st; simpl.
  - by rewrite app_nil_r.
  - rewrite IH. simpl. by rewrite app_assoc.
Qed.


Lemma live_key_nil k sid : ¬ live_key [] k sid.
Proof. intros (b & p & a & info & H & _). by destruct b. Qed.

Lemma live_key_snoc ops o k s :
  live_key (ops ++ [o]) k s ↔
  match o with
  | Register sid p =>
      live_key ops k s
      ∨ (s = sid ∧ ∃ info, resolve p = Some info ∧ actorKey info = k)
  | Disconnect sid => live_key ops k s ∧ s ≠ sid
  end.
Proof.
  split.
  - intros (b & p & a & info & Heq & Hr & Hk & Hn).
    destruct a as [|x a _] using rev_ind.
    + apply app_inj_tail in Heq as [-> ->]. right. eauto.
    + rewrite app_comm_cons, app_assoc in Heq.
      apply app_inj_tail in Heq as [-> ->].
      rewrite elem_of_app, list_elem_of_singleton in Hn.
      assert (live_key (b ++ Register s p :: a) k s).
      { exists b, p, a, info. repeat split; try done. by intros ?; apply Hn; left. }
      destruct x as [sid q|sid]; [by left|].
      split; [done|]. intros ->. apply Hn. by right.
  - destruct o as [sid q|sid].
    + intros [(b & p & a & info & -> & Hr & Hk & Hn)|(-> & info & Hr & Hk)].
      * exists b, p, (a ++ [Register sid q]), info.
        rewrite <- app_assoc. simpl. repeat split; try done.
        rewrite elem_of_app, list_elem_of_singleton. by intros [?|?].
      * exists ops, q, [], info. repeat split; try done. set_solver.
    + intros [(b & p & a & info & -> & Hr & Hk & Hn) Hs].
      exists b, p, (a ++ [Disconnect sid]), info.
      rewrite <- app_assoc. simpl. repeat split; try done.
      rewrite elem_of_app, list_elem_of_singleton. intros [?|[= ?]]; done.
Qed.

Lemma member_run ops k s :
  member (run init ops).1 k s ↔ live_key ops k s.
Proof.
  induction ops as [|o ops IH] using rev_ind.
  - split; [|by intros ?%live_key_nil].
    intros (set & H & _). simpl in H. by rewrite lookup_empty in H.
  - rewrite run_snoc, live_key_snoc. cbv zeta.
    destruct o as [sid p|sid]; cbn [step fst snd].
    + by rewrite member_register, IH.
    + by rewrite member_disconnect, IH.
Qed.

Lemma live_live_key ops type id s :
  live ops type id s ↔ live_key ops (keyForActor type id) s.
Proof.
  split.
  - intros (b & p & a & t & i & -> & Hp & Hs & Hn).
    exists b, p, a, (ActorInfo (keyForActor t i) t i).
    split; [done|]. split; [by apply principal_resolve|]. split; [|done].
    by apply keyForActor_inj.
  - intros (b & p & a & info & -> & Hr & Hk & Hn).
    apply resolve_principal in Hr as [Hp Hkey].
    exists b, p, a, (actorType info), (actorId info).
    split; [done|]. split; [done|]. split; [|done].
    apply keyForActor_inj. congruence.
Qed.

(** C2. After every run of registrations and disconnections from the
    empty registry, [isActorOnline type id] answers true exactly when the
    principal has a live handle: one registered for it and not
    disconnected since. *)
Theorem isActorOnline_iff_live (ops : list op) (type id : string) :
  isActorOnline type id (run init ops).1 = true ↔ ∃ sid, live ops type id sid.
Proof.
  rewrite isActorOnline_member.
  split; intros [s Hs]; exists s.
  - by apply live_live_key, member_run.
  - by apply member_run, live_live_key.
Qed.

(** C1, as the handlers have it.  A registration with a well-formed
    payload broadcasts [user:online] once, whatever handles the principal
    already has; any other payload changes and emits nothing.  A
    disconnection broadcasts at most one [user:offline]: it does when the
    principal the socket registered as (with non-empty type and id) is left
    without a handle, its entry being removed, and only then. *)
Theorem presence_broadcasts st sid :
  (∀ p info, resolve p = Some info →
     (register sid p st).2
     = [Registered sid info; UserOnline (actorType info) (actorId info)])
  ∧ (∀ p, resolve p = None → register sid p st = (st, []))
  ∧ (∀ info set,
       sockets st !! sid = Some info →
       connectedUsers st !! actorKey info = Some set →
       set ⊆ {[sid]} →
       truthy (actorType info) && truthy (actorId info) = true →
       (disconnect sid st).2 = [UserOffline (actorType info) (actorId info)])
  ∧ (∀ e, e ∈ (disconnect sid st).2 →
       ∃ info set,
         sockets st !! sid = Some info
         ∧ e = UserOffline (actorType info) (actorId info)
         ∧ connectedUsers st !! actorKey info = Some set
         ∧ set ⊆ {[sid]}
         ∧ connectedUsers (disconnect sid st).1 !! actorKey info = None)
  ∧ length (disconnect sid st).2 ≤ 1.
Proof.
  repeat split.
  - intros p info Hr. unfold register. by rewrite Hr.
  - intros p Hr. unfold register. by rewrite Hr.
  - intros info set Hs Hk Hsub Ht. rewrite disconnect_emits, Hs, Hk, Ht.
    destruct (decide (size (set ∖ {[sid]}) = 0)) as [|Hne]; [done|].
    exfalso. apply Hne, size_empty_iff, elem_of_equiv_empty.
    intros x [Hx Hnx]%elem_of_difference. by apply Hnx, Hsub.
  - intros e. rewrite disconnect_emits.
    destruct (sockets st !! sid) as [info|]; [|by intros ?%elem_of_nil].
    destruct (connectedUsers st !! actorKey info) as [set|] eqn:Hk;
      [|by intros ?%elem_of_nil].
    destruct (decide (size (set ∖ {[sid]}) = 0)) as [He|];
      [|by intros ?%elem_of_nil].
    destruct (truthy (actorType info) && truthy (actorId info));
      [|by intros ?%elem_of_nil].
    intros ->%list_elem_of_singleton. exists info, set.
    rewrite disconnect_lookup, Hk.
    destruct (decide (size (set ∖ {[sid]}) = 0)); [|done].
    repeat split; try done. apply size_empty_iff in He.
    intros x Hx. apply elem_of_singleton.
    destruct (decide (x = sid)); [done|].
    exfalso. apply (not_elem_of_empty (C:=gset string) x), He.
    apply elem_of_difference. split; [done|].
    by rewrite elem_of_singleton.
  - rewrite disconnect_emits.
    destruct (sockets st !! sid) as [info|]; [|simpl; lia].
    destruct (connectedUsers st !! actorKey info) as [set|]; [|simpl; lia].
    destruct (decide _); [|simpl; lia].
    destruct (_ && _); simpl; lia.
Qed.

(** The registry after one tab of user 42 has registered, and the second
    tab registering. *)
Lemma presence_broadcasts_witness :
  (register "s2" (PString "42")
     (run init [Register "s1" (PString "42")]).1).2
  = [Registered "s2" (ActorInfo "u:42" "user" "42"); UserOnline "user" "42"].
Proof.
  apply (proj1 (presence_broadcasts
                  (run init [Register "s1" (PString "42")]).1 "s2")).
  reflexivity.
Defined.

(** C1 as stated fails: user 42 is online through socket s1 and the
    registration of a second socket s2 broadcasts [user:online] again. *)
Lemma register_rebroadcasts_online : ¬ online_only_on_transition.
Proof.
  intros H.
  specialize (H (run init [Register "s1" (PString "42")]).1
                "s2" (PString "42") "user" "42").
  assert (isActorOnline "user" "42"
            (run init [Register "s1" (PString "42")]).1 = true) as Hon
    by (vm_compute; reflexivity).
  rewrite H in Hon; [done|].
  vm_compute. apply elem_of_cons. right. apply elem_of_cons. by left.
Qed.


End registry.

(** ** Strings *)

Section js_strings.

Import Js.

Lemma length_slice0 n s : String.length (slice0 n s) ≤ n.
Proof.
  unfold slice0. revert s. induction n as [|n IH]; intros [|c s]; simpl; try lia.
  specialize (IH s). lia.
Qed.

Lemma length_slice0_le n s : String.length (slice0 n s) ≤ String.length s.
Proof.
  unfold slice0. revert s. induction n as [|n IH]; intros [|c s]; simpl; try lia.
  specialize (IH s). lia.
Qed.

Lemma slice0_short n s : String.length s ≤ n → slice0 n s = s.
Proof.
  unfold slice0. revert s. induction n as [|n IH]; intros [|c s]; simpl;
    try done; try lia.
  intros H. f_equal. apply IH. lia.
Qed.

Lemma length_trimStart s : String.length (trimStart s) ≤ String.length s.
Proof.
  induction s as [|c s IH]; simpl; [lia|].
  destruct (is_space c); simpl; lia.
Qed.

Lemma length_trimEnd s : String.length (trimEnd s) ≤ String.length s.
Proof.
  induction s as [|c s IH]; simpl; [lia|].
  destruct (trimEnd s); [destruct (is_space c)|]; simpl in *; lia.
Qed.

Lemma length_trim s : String.length (trim s) ≤ String.length s.
Proof.
  unfold trim. pose proof (length_trimEnd (trimStart s)).
  pose proof (length_trimStart s). lia.
Qed.

Lemma trimEnd_idemp s : trimEnd (trimEnd s) = trimEnd s.
Proof.
  induction s as [|c s IH]; simpl; [done|].
  destruct (trimEnd s) as [|c' t] eqn:E.
  - destruct (is_space c) eqn:Ec; simpl; [done|]. by rewrite Ec.
  - simpl in *. by rewrite IH.
Qed.

Lemma trimStart_trimEnd_trimStart s :
  trimStart (trimEnd (trimStart s)) = trimEnd (trimStart s).
Proof.
  induction s as [|c s IH]; simpl; [done|].
  destruct (is_space c) eqn:Ec; [done|]. simpl.
  destruct (trimEnd s); rewrite ?Ec; simpl; by rewrite Ec.
Qed.

Lemma trim_idemp s : trim (trim s) = trim s.
Proof.
  unfold trim. by rewrite trimStart_trimEnd_trimStart, trimEnd_idemp.
Qed.

Lemma nonempty_true s : nonempty s = true ↔ s ≠ "".
Proof.
  unfold nonempty. rewrite negb_true_iff. apply String.eqb_neq.
Qed.

Lemma nonempty_slice0_app n s t :
  nonempty s = true → nonempty (slice0 (S n) s +:+ t) = true.
Proof. by destruct s. Qed.

Lemma trim_blank : trim "   " = "".
Proof. reflexivity. Qed.

End js_strings.

(** ** The conversation table *)

Section conversations.

Implicit Types (table : list Conversation.doc) (d convo : Conversation.doc).

Lemma findById_Some id table d :
  Conversation.findById id table = Some d →
  Conversation._id d = id ∧ d ∈ table.
Proof.
  unfold Conversation.findById. intros [Hin Heq]%find_some.
  split; [by apply N.eqb_eq|by apply list_elem_of_In].
Qed.


Lemma findById_save id table d d' :
  Conversation.findById id table = Some d →
  Conversation._id d' = id →
  Conversation.findById id (Conversation.save d' table) = Some d'.
Proof.
  unfold Conversation.findById, Conversation.save. intros H <-.
  induction table as [|c table IH]; simpl in *; [done|].
  destruct (Conversation._id c =? Conversation._id d')%N eqn:E.
  - by rewrite N.eqb_refl.
  - rewrite E. by apply IH.
Qed.

Lemma save_save d table :
  Conversation.save d (Conversation.save d table) = Conversation.save d table.
Proof.
  unfold Conversation.save. rewrite <- list_fmap_compose.
  apply list_fmap_ext. intros _ c _. simpl.
  destruct (Conversation._id c =? Conversation._id d)%N eqn:E.
  - by rewrite N.eqb_refl.
  - by rewrite E.
Qed.

End conversations.

(** ** Sending a message *)

Section send.

Import ChatSpec.

Implicit Types (a : Actor.t) (convo : Conversation.doc) (db : store)
  (reg : Socket.state).

Lemma participant_member a convo :
  participant a convo ↔ Chat.isUser a convo || Chat.isCompany a convo = true.
Proof.
  unfold participant, Chat.isUser, Chat.isCompany, Actor.is_user,
    Actor.is_company.
  destruct (Actor.type a); simpl; rewrite ?orb_false_r, N.eqb_eq;
    split; try (intros [[? ?]|[? ?]]; done); intros <-; eauto.
Qed.

Lemma not_participant_member a convo :
  ¬ participant a convo →
  negb (Chat.isUser a convo) && negb (Chat.isCompany a convo) = true.
Proof.
  rewrite participant_member.
  destruct (Chat.isUser a convo), (Chat.isCompany a convo); simpl; done.
Qed.

Lemma participant_markRead a convo :
  participant a convo ↔
  (Actor.is_user a && (Conversation.user convo =? Actor.id a)%N)
  || (negb (Actor.is_user a) && (Conversation.company convo =? Actor.id a)%N)
  = true.
Proof.
  rewrite participant_member. unfold Chat.isUser, Chat.isCompany,
    Actor.is_user, Actor.is_company.
  by destruct (Actor.type a).
Qed.

(** What [sendMessage] does for a participant of an existing
    conversation. *)
Lemma sendMessage_participant reg a conversationId text file
    now savedAt notifiedAt db convo :
  Conversation.findById conversationId (conversations db) = Some convo →
  participant a convo →
  Chat.sendMessage reg a conversationId text file now savedAt notifiedAt db =
  match stored_text text file with
  | None => (Fail 400 "Invalid text", db)
  | Some stored =>
      let m :=
        Message.Doc (nextId db) conversationId (Actor.type a)
          (if Actor.is_user a then Some (Actor.id a) else None)
          (if Actor.is_company a then Some (Actor.id a) else None)
          stored (attachments_of file) (Some now) None savedAt in
      let on := online reg (recipient a convo) in
      (Json 201 m,
       Store (Conversation.save (touched a m convo) (conversations db))
             (messages db ++ [m])
             (notifications db ++
                if on then []
                else [fallback a convo m (nextId db + 1)%N notifiedAt db])
             (userProfiles db) (companyProfiles db)
             (if on then nextId db + 1 else nextId db + 1 + 1)%N)
  end.
Proof.
  intros Hfind Hp. pose proof (findById_Some _ _ _ Hfind) as [Hid _].
  subst conversationId. apply participant_member in Hp.
  unfold Chat.sendMessage. rewrite Hfind.
  replace (negb (Chat.isUser a convo) && negb (Chat.isCompany a convo))
    with false by (by destruct (Chat.isUser a convo), (Chat.isCompany a convo)).
  assert (∀ s, String.length s ≤ 4000 →
               (String.length (Js.trim s) <=? 4000)%nat = true) as Hlen.
  { intros s Hs. apply Nat.leb_le. pose proof (length_trim s). lia. }
  assert (∀ s, nonempty
                 (if nonempty s then
                    Js.slice0 100 s
                    +:+ (if (100 <? String.length s)%nat then "..." else "")
                  else "Sent an attachment") = true) as Hpre.
  { intros s. destruct (nonempty s) eqn:E; [|done].
    by apply nonempty_slice0_app. }
  unfold stored_text, online, recipient, touched, fallback, sender_name,
    attachments_of, Chat.newMessage,
    NotificationController.createNotification, with_conversations,
    with_messages, with_notifications, bump,
    Conversation.set_companyUnreadCount, Conversation.set_userUnreadCount,
    Conversation.set_lastMessagePreview, Conversation.set_lastMessageAt.
  destruct a as [[] aid]; destruct file as [f|], text as [t|]; simpl;
    try done;
    try (destruct (nonempty t) eqn:Et; simpl; [|done];
         rewrite Nat.leb_antisym;
         destruct (4000 <? String.length t)%nat eqn:El; simpl; [done|];
         apply Nat.ltb_ge in El; rewrite trim_idemp);
    rewrite ?Hlen by (try apply length_slice0; try (pose proof (length_trim t); lia);
                     simpl; lia);
    simpl;
    match goal with
    | |- context [Socket.isActorOnline ?t ?i reg] =>
        destruct (Socket.isActorOnline t i reg)
    end; simpl; rewrite ?app_nil_r; try done;
    rewrite ?Hpre; done.
Qed.

Lemma sendMessage_unknown reg a conversationId text file now savedAt
    notifiedAt db :
  Conversation.findById conversationId (conversations db) = None →
  Chat.sendMessage reg a conversationId text file now savedAt notifiedAt db
  = (Fail 404 "Conversation not found", db).
Proof. intros H. unfold Chat.sendMessage. by rewrite H. Qed.

Lemma sendMessage_forbidden reg a conversationId text file now savedAt
    notifiedAt db convo :
  Conversation.findById conversationId (conversations db) = Some convo →
  ¬ participant a convo →
  Chat.sendMessage reg a conversationId text file now savedAt notifiedAt db
  = (Fail 403 "Forbidden: You are not a participant in this conversation.", db).
Proof.
  intros H Hp. unfold Chat.sendMessage.
  by rewrite H, (not_participant_member _ _ Hp).
Qed.

Lemma participant_dec a convo : participant a convo ∨ ¬ participant a convo.
Proof.
  rewrite participant_member.
  destruct (Chat.isUser a convo || Chat.isCompany a convo); [by left|by right].
Qed.

(** An accepted request comes from a participant of an existing
    conversation. *)
Lemma sendMessage_accepted reg a conversationId text file now savedAt
    notifiedAt db m db' :
  Chat.sendMessage reg a conversationId text file now savedAt notifiedAt db
  = (Json 201 m, db') →
  ∃ convo,
    Conversation.findById conversationId (conversations db) = Some convo
    ∧ participant a convo.
Proof.
  intros H.
  destruct (Conversation.findById conversationId (conversations db))
    as [convo|] eqn:Hfind.
  - exists convo. split; [done|].
    destruct (participant_dec a convo) as [|Hn]; [done|].
    by rewrite (sendMessage_forbidden _ _ _ _ _ _ _ _ _ _ Hfind Hn) in H.
  - by rewrite sendMessage_unknown in H.
Qed.

End send.

Section send_claims.

Import ChatSpec.

Implicit Types (a : Actor.t) (convo : Conversation.doc) (db : store)
  (reg : Socket.state).




(** C6, as the controller has it.  For an accepted message whose
    recipient, the other party, has no handle in the registry, exactly one
    notification is added: addressed to the recipient alone, of type
    [message_received] and priority [medium], unread, its message being
    the first 100 characters of the stored text, followed by three dots
    when the text is longer, or "Sent an attachment" when the stored text
    is empty.  When the recipient is online no notification is added. *)
Theorem sendMessage_notification_fallback reg a conversationId text file
    now savedAt notifiedAt db m db' :
  Chat.sendMessage reg a conversationId text file now savedAt notifiedAt db
  = (Json 201 m, db') →
  ∃ convo,
    Conversation.findById conversationId (conversations db) = Some convo
    ∧ if online reg (recipient a convo) then
        notifications db' = notifications db
      else
        ∃ n,
          notifications db' = notifications db ++ [n]
          ∧ Notification.type n = Notification.message_received
          ∧ Notification.priority n = Notification.medium
          ∧ Notification.isRead n = false
          ∧ (Notification.userId n, Notification.companyId n)
            = match Actor.type (recipient a convo) with
              | Actor.user => (Some (Actor.id (recipient a convo)), None)
              | Actor.company => (None, Some (Actor.id (recipient a convo)))
              end
          ∧ Notification.message n
            = (if nonempty (Message.text m) then
                 Js.slice0 100 (Message.text m)
                 +:+ (if (100 <? String.length (Message.text m))%nat
                      then "..." else "")
               else "Sent an attachment")
          ∧ ((String.length (Message.text m) ≤ 100)%nat →
             nonempty (Message.text m) = true →
             Notification.message n = Message.text m).
Proof.
  intros H. destruct (sendMessage_accepted _ _ _ _ _ _ _ _ _ _ _ H)
    as (convo & Hfind & Hp).
  rewrite (sendMessage_participant _ _ _ _ _ _ _ _ _ _ Hfind Hp) in H.
  destruct (stored_text text file) as [stored|] eqn:Hs; [|done].
  cbv zeta in H. injection H as <- <-.
  exists convo. split; [done|].
  destruct (online reg (recipient a convo)); simpl; [by rewrite app_nil_r|].
  eexists. split; [done|]. simpl.
  repeat split; try done.
  - unfold recipient. by destruct (Actor.is_user a).
  - intros Hlen Hne. unfold notification_preview. rewrite Hne.
    rewrite slice0_short by done.
    assert ((100 <? String.length stored)%nat = false) as ->
      by (apply Nat.ltb_ge; lia).
    clear. induction stored as [|c s IH]; [done|].
    change (String c (s +:+ "") = String c s). by f_equal.
Qed.

Lemma sendMessage_notification_fallback_witness :
  ∃ n,
    notifications
      (Chat.sendMessage Socket.init (Actor.Make Actor.user 1) 0
         (Some "Are you hiring?") None 11 12 13
         (Store [Conversation.fresh 0 1 2 10] [] [] ∅ ∅ 1)).2 = [n]
    ∧ Notification.companyId n = Some 2%N
    ∧ Notification.message n = "Are you hiring?".
Proof.
  destruct (sendMessage_notification_fallback Socket.init
              (Actor.Make Actor.user 1) 0 (Some "Are you hiring?") None
              11 12 13 (Store [Conversation.fresh 0 1 2 10] [] [] ∅ ∅ 1)
              _ _ eq_refl)
    as (convo & H1 & H2).
  injection H1 as <-.
  destruct H2 as (n & Hn & _ & _ & _ & Hto & Hmsg & _).
  exists n. split; [exact Hn|]. split; [|exact Hmsg].
  injection Hto as _ Hc. exact Hc.
Defined.

(** C6 as stated fails for a long text: the company is offline, the
    user sends 101 characters, and the notification carries the first 100
    followed by three dots, not the first 100 alone. *)
Lemma long_text_notification_has_dots :
  let text := String.string_of_list_ascii (repeat "a"%char 101) in
  let db := Store [Conversation.fresh 0 1 2 10] [] [] ∅ ∅ 1 in
  let r := Chat.sendMessage Socket.init (Actor.Make Actor.user 1) 0
             (Some text) None 11 12 13 db in
  (∃ m, r.1 = Json 201 m ∧ Message.text m = text)
  ∧ Notification.message <$> last (notifications r.2)
    = Some (Js.slice0 100 text +:+ "...")
  ∧ Notification.message <$> last (notifications r.2)
    ≠ Some (Js.slice0 100 text).
Proof.
  split; [eexists; split; [reflexivity|]|split]; by vm_compute.
Qed.

(** C8 fails on the code: a text made of white space only passes the
    test on the untrimmed text, and the request is accepted: an empty
    message without attachment is stored, the conversation is touched and
    the counter of the other side goes up. *)
Theorem sendMessage_accepts_blank_text reg a conversationId t
    now savedAt notifiedAt db convo :
  Conversation.findById conversationId (conversations db) = Some convo →
  participant a convo →
  nonempty t = true → (String.length t ≤ 4000)%nat → Js.trim t = "" →
  ∃ m db',
    Chat.sendMessage reg a conversationId (Some t) None
                     now savedAt notifiedAt db = (Json 201 m, db')
    ∧ Message.text m = "" ∧ Message.attachments m = []
    ∧ messages db' = messages db ++ [m]
    ∧ conversations db' ≠ conversations db.
Proof.
  intros Hfind Hp Hne Hlen Htrim.
  rewrite (sendMessage_participant _ _ _ _ _ _ _ _ _ _ Hfind Hp).
  unfold stored_text. rewrite Hne. simpl.
  assert ((String.length t <=? 4000)%nat = true) as -> by by apply Nat.leb_le.
  rewrite Htrim. cbv zeta. eexists _, _. split; [done|]. simpl.
  repeat split; try done.
  intros Heq. pose proof (findById_save _ _ _
    (touched a (Message.Doc (nextId db) conversationId (Actor.type a)
       (if Actor.is_user a then Some (Actor.id a) else None)
       (if Actor.is_company a then Some (Actor.id a) else None)
       "" [] (Some now) None savedAt) convo) Hfind) as Hs.
  rewrite Heq, Hfind in Hs.
  pose proof (findById_Some _ _ _ Hfind) as [Hid _].
  specialize (Hs Hid). injection Hs as Hs.
  apply (f_equal (λ c, (Conversation.userUnreadCount c,
                         Conversation.companyUnreadCount c))) in Hs.
  simpl in Hs. destruct (Actor.is_user a); injection Hs; lia.
Qed.

Lemma sendMessage_accepts_blank_text_witness :
  ∃ m db',
    Chat.sendMessage Socket.init (Actor.Make Actor.user 1) 0 (Some "   ") None
      11 12 13 (Store [Conversation.fresh 0 1 2 10] [] [] ∅ ∅ 1)
    = (Json 201 m, db')
    ∧ Message.text m = "" ∧ Message.attachments m = []
    ∧ messages db' = [m].
Proof.
  destruct (sendMessage_accepts_blank_text Socket.init
              (Actor.Make Actor.user 1) 0 "   " 11 12 13
              (Store [Conversation.fresh 0 1 2 10] [] [] ∅ ∅ 1)
              (Conversation.fresh 0 1 2 10))
    as (m & db' & H1 & H2 & H3 & H4 & _).
  - reflexivity.
  - left. split; reflexivity.
  - reflexivity.
  - simpl. lia.
  - reflexivity.
  - exists m, db'. repeat split; assumption.
Defined.

End send_claims.

(** ** Authorization and reading *)

Section read.

Import ChatSpec.

Implicit Types (a : Actor.t) (convo : Conversation.doc) (db : store)
  (reg : Socket.state).



Lemma markRead_participant a conversationId now db convo :
  Conversation.findById conversationId (conversations db) = Some convo →
  participant a convo →
  Chat.markRead a conversationId now db =
  (Json 200 tt,
   Store
     (Conversation.save
        (if Actor.is_user a then Conversation.set_userUnreadCount 0 convo
         else Conversation.set_companyUnreadCount 0 convo)
        (conversations db))
     (Message.updateMany (unread_from_other a conversationId)
                         (Message.set_readAt now) (messages db))
     (notifications db) (userProfiles db) (companyProfiles db) (nextId db)).
Proof.
  intros Hfind Hp. unfold Chat.markRead. rewrite Hfind.
  rewrite participant_markRead in Hp. rewrite Hp. simpl.
  unfold with_conversations, with_messages, unread_from_other,
    Actor.is_user, Actor.other. simpl.
  by destruct (Actor.type a).
Qed.

Lemma unread_from_other_updated a conversationId now (m : Message.doc) :
  unread_from_other a conversationId
    (if unread_from_other a conversationId m
     then Message.set_readAt now m else m) = false.
Proof.
  destruct (unread_from_other a conversationId m) eqn:E; [|done].
  unfold unread_from_other. simpl. by rewrite andb_false_r.
Qed.

(** C5. [markRead] by a participant stamps, in a single [updateMany],
    [readAt] on every message of the conversation that the other side
    wrote and that has none, touches no other message, and sets the
    reader's unread counter to zero, the rest of the conversation and the
    other tables staying as they were; a second [markRead] right after it
    changes nothing at all. *)
Theorem markRead_batch_idempotent a conversationId now now' db convo :
  Conversation.findById conversationId (conversations db) = Some convo →
  participant a convo →
  ∃ db' convo',
    Chat.markRead a conversationId now db = (Json 200 tt, db')
    ∧ messages db'
      = map (λ m, if unread_from_other a conversationId m
                  then Message.set_readAt now m else m) (messages db)
    ∧ (∀ m, m ∈ messages db' → unread_from_other a conversationId m = false)
    ∧ Conversation.findById conversationId (conversations db') = Some convo'
    ∧ convo'
      = (if Actor.is_user a then Conversation.set_userUnreadCount 0 convo
         else Conversation.set_companyUnreadCount 0 convo)
    ∧ (if Actor.is_user a then Conversation.userUnreadCount convo'
       else Conversation.companyUnreadCount convo') = 0%N
    ∧ notifications db' = notifications db
    ∧ Chat.markRead a conversationId now' db' = (Json 200 tt, db').
Proof.
  intros Hfind Hp. pose proof (findById_Some _ _ _ Hfind) as [Hid _].
  eexists _, _. split; [by apply markRead_participant|]. simpl.
  split; [done|]. split.
  { intros m (m0 & -> & _)%list_elem_of_fmap.
    apply unread_from_other_updated. }
  split.
  { apply (findById_save _ _ convo); [done|by destruct (Actor.is_user a)]. }
  split; [done|]. split; [by destruct (Actor.is_user a)|]. split; [done|].
  set (convo' := if Actor.is_user a
                 then Conversation.set_userUnreadCount 0 convo
                 else Conversation.set_companyUnreadCount 0 convo).
  assert (convo' = (if Actor.is_user a
                    then Conversation.set_userUnreadCount 0 convo'
                    else Conversation.set_companyUnreadCount 0 convo')) as Hz
    by (subst convo'; by destruct (Actor.is_user a)).
  rewrite (markRead_participant a conversationId now' _ convo'); simpl.
  - f_equal. f_equal.
    + rewrite <- Hz. apply save_save.
    + unfold Message.updateMany. rewrite <- list_fmap_compose.
      apply list_fmap_ext. intros _ m _. simpl.
      by rewrite unread_from_other_updated.
  - apply (findById_save _ _ convo); [done|].
    subst convo'. by destruct (Actor.is_user a).
  - unfold participant in *. subst convo'. by destruct (Actor.is_user a).
Qed.

Lemma markRead_batch_idempotent_witness :
  let sent :=
    Chat.sendMessage Socket.init (Actor.Make Actor.user 1) 0
      (Some "Are you hiring?") None 11 12 13
      (Store [Conversation.fresh 0 1 2 10] [] [] ∅ ∅ 1) in
  ∃ db',
    Chat.markRead (Actor.Make Actor.company 2) 0 20 sent.2 = (Json 200 tt, db')
    ∧ Message.readAt <$> messages db' = [Some 20%Z]
    ∧ Conversation.companyUnreadCount
        <$> Conversation.findById 0 (conversations db') = Some 0%N
    ∧ Chat.markRead (Actor.Make Actor.company 2) 0 30 db' = (Json 200 tt, db').
Proof.
  intros sent.
  destruct (markRead_batch_idempotent (Actor.Make Actor.company 2) 0 20 30
              sent.2 (Conversation.Doc 0 1 2 12 "Are you hiring?" 0 1 false false))
    as (db' & convo' & H1 & H2 & _ & H4 & H5 & _ & _ & H8).
  - reflexivity.
  - right. split; reflexivity.
  - exists db'. split; [exact H1|]. split; [|split; [|exact H8]].
    + rewrite H2. reflexivity.
    + rewrite H4, H5. reflexivity.
Defined.

End read.

(** ** Starting a conversation *)

Section start.

Import ChatSpec.

Implicit Types (a : Actor.t) (d convo : Conversation.doc) (db : store)
  (reg : Socket.state) (table : list Conversation.doc).

Lemma has_pair_true u c d :
  Conversation.has_pair u c d = true ↔ pair d = (u, c).
Proof.
  unfold Conversation.has_pair, pair.
  rewrite andb_true_iff, !N.eqb_eq. split; [by intros [-> ->]|by intros [= -> ->]].
Qed.




(** The update branch of the upsert: the first row of the pair gets the
    new time and nothing else moves. *)
Lemma update_first_Some u c now table r table' :
  Conversation.update_first (Conversation.has_pair u c)
    (Conversation.set_lastMessageAt now) table = Some (r, table') →
  ∃ before d after,
    table = before ++ d :: after
    ∧ find (Conversation.has_pair u c) table = Some d
    ∧ r = Conversation.set_lastMessageAt now d
    ∧ table' = before ++ r :: after.
Proof.
  revert r table'. induction table as [|x table IH]; intros r table'; simpl;
    [done|].
  destruct (Conversation.has_pair u c x) eqn:E.
  - intros [= <- <-]. by exists [], x, table.
  - destruct (Conversation.update_first _ _ table) as [[r0 t0]|]; [|done].
    intros [= <- <-].
    destruct (IH _ _ eq_refl) as (before & d & after & -> & Hf & -> & ->).
    by exists (x :: before), d, after.
Qed.

Lemma update_first_find u c now table :
  Conversation.update_first (Conversation.has_pair u c)
    (Conversation.set_lastMessageAt now) table = None
  ↔ find (Conversation.has_pair u c) table = None.
Proof.
  induction table as [|x table IH]; simpl; [done|].
  destruct (Conversation.has_pair u c x); [done|].
  destruct (Conversation.update_first _ _ table) as [[r0 t0]|].
  - split; [done|]. intros Hf. by apply IH in Hf.
  - split; [|done]. intros _. by apply IH.
Qed.

Lemma pair_set_lastMessageAt now d :
  pair (Conversation.set_lastMessageAt now d) = pair d.
Proof. done. Qed.








End start.

(** ** Listing conversations *)

Section listing.

Import ChatSpec.

Context {A : Type} (key : A → Z).

Local Notation "'newest_first'" := (λ x y : A, (key y <? key x)%Z).

Lemma elem_of_insert_by (x y : A) l :
  y ∈ Js.insert_by newest_first x l ↔ y = x ∨ y ∈ l.
Proof.
  induction l as [|h t IH]; simpl.
  - rewrite list_elem_of_singleton, elem_of_nil. tauto.
  - destruct (newest_first h x); rewrite !elem_of_cons, ?IH; tauto.
Qed.

Lemma elem_of_sort_by (y : A) l : y ∈ Js.sort_by newest_first l ↔ y ∈ l.
Proof.
  unfold Js.sort_by. induction l as [|h t IH]; simpl; [done|].
  by rewrite elem_of_insert_by, elem_of_cons, IH.
Qed.

Lemma sort_by_head_max l (m : A) rest :
  Js.sort_by newest_first l = m :: rest → ∀ y, y ∈ l → (key y <= key m)%Z.
Proof.
  unfold Js.sort_by. revert m rest.
  induction l as [|h t IH]; intros m rest; simpl; [done|].
  destruct (foldr _ _ t) as [|s0 s] eqn:Es; simpl.
  - intros [= <- <-] y [->|Hy]%elem_of_cons; [lia|].
    apply elem_of_sort_by in Hy. unfold Js.sort_by in Hy.
    rewrite Es in Hy. by apply elem_of_nil in Hy.
  - specialize (IH _ _ eq_refl). cbv beta.
    destruct (key h <? key s0)%Z eqn:E.
    + apply Z.ltb_lt in E. intros [= <- <-] y [->|Hy]%elem_of_cons; [lia|].
      by apply IH.
    + apply Z.ltb_ge in E. intros [= <- <-] y [->|Hy]%elem_of_cons; [lia|].
      specialize (IH _ Hy). lia.
Qed.

(** The row with the strictly largest key comes first. *)
Lemma sort_by_head (x : A) l :
  x ∈ l → (∀ y, y ∈ l → y = x ∨ (key y < key x)%Z) →
  ∃ rest, Js.sort_by newest_first l = x :: rest.
Proof.
  intros Hx Hmax.
  destruct (Js.sort_by newest_first l) as [|m rest] eqn:Es.
  - apply elem_of_sort_by in Hx. rewrite Es in Hx. by apply elem_of_nil in Hx.
  - assert (m ∈ l) as Hm by (apply elem_of_sort_by; rewrite Es; by left).
    pose proof (sort_by_head_max _ _ _ Es x Hx).
    destruct (Hmax m Hm) as [->|?]; [by eexists|lia].
Qed.

End listing.

Section restart.

Import ChatSpec.

Implicit Types (a : Actor.t) (d convo : Conversation.doc) (db : store)
  (reg : Socket.state).

(** C10. [startConversation] on a pair that has its conversation returns
    that row with [lastMessageAt] set to the time of the call and writes
    it back: the id, the two parties, the preview, both unread counters
    and both archive flags are as before, as are all other rows and
    tables.  When the call is later than the other conversations'
    [lastMessageAt], the conversation then heads the caller's list. *)
Theorem startConversation_existing_bumps_lastMessageAt reg a bd now db u c d :
  pair_of (StartCall reg a bd now) = Some (u, c) →
  find (Conversation.has_pair u c) (conversations db) = Some d →
  ∃ before after on d',
    conversations db = before ++ d :: after
    ∧ Chat.startConversation reg a bd now db
      = (Json 201 (d', on),
         Store (before ++ d' :: after) (messages db) (notifications db)
               (userProfiles db) (companyProfiles db) (nextId db))
    ∧ Conversation.lastMessageAt d' = now
    ∧ Conversation._id d' = Conversation._id d
    ∧ Conversation.user d' = Conversation.user d
    ∧ Conversation.company d' = Conversation.company d
    ∧ Conversation.lastMessagePreview d' = Conversation.lastMessagePreview d
    ∧ Conversation.userUnreadCount d' = Conversation.userUnreadCount d
    ∧ Conversation.companyUnreadCount d' = Conversation.companyUnreadCount d
    ∧ Conversation.archivedBy_user d' = Conversation.archivedBy_user d
    ∧ Conversation.archivedBy_company d' = Conversation.archivedBy_company d
    ∧ ((∀ x, x ∈ before ++ after → (Conversation.lastMessageAt x < now)%Z) →
       ∀ reg', ∃ on' rest,
         Chat.listConversations reg' a
           (Chat.startConversation reg a bd now db).2
         = Json 200 ((d', on') :: rest)).
Proof.
  intros Hp Hf.
  assert (∃ before after,
    conversations db = before ++ d :: after
    ∧ Conversation.findOneAndUpdate u c now (nextId db) (conversations db)
      = (Conversation.set_lastMessageAt now d,
         before ++ Conversation.set_lastMessageAt now d :: after, false))
    as (before & after & Hc & Hup).
  { unfold Conversation.findOneAndUpdate.
    destruct (Conversation.update_first _ _ _) as [[r t]|] eqn:E.
    - apply update_first_Some in E as (b & d0 & af & Ht & Hf' & -> & ->).
      rewrite Hf in Hf'. injection Hf' as <-. by exists b, af.
    - apply update_first_find in E. congruence. }
  assert (∃ on,
    Chat.startConversation reg a bd now db
    = (Json 201 (Conversation.set_lastMessageAt now d, on),
       Store (before ++ Conversation.set_lastMessageAt now d :: after)
             (messages db) (notifications db)
             (userProfiles db) (companyProfiles db) (nextId db))) as [on Hs].
  { unfold Chat.startConversation. unfold pair_of in Hp. simpl in Hp.
    destruct (Actor.type a).
    - destruct (Chat.companyId bd); try done. injection Hp as <- <-.
      rewrite Hup. by eexists.
    - destruct (Chat.userId bd); try done. injection Hp as <- <-.
      rewrite Hup. by eexists. }
  exists before, after, on, (Conversation.set_lastMessageAt now d).
  do 11 (split; [done|]).
  intros Hnew reg'. rewrite Hs. unfold Chat.listConversations. simpl.
  apply find_some in Hf as [_ Hd%has_pair_true]. injection Hd as Hdu Hdc.
  match goal with
  | |- context [Js.sort_by ?cmp (List.filter ?q ?l)] =>
      destruct (sort_by_head Conversation.lastMessageAt
                  (Conversation.set_lastMessageAt now d) (List.filter q l))
        as [rest Hrest]
  end.
  - apply list_elem_of_In, filter_In. split.
    + apply list_elem_of_In, elem_of_app. right. by left.
    + simpl. unfold pair_of in Hp. simpl in Hp. unfold Actor.is_user.
      destruct (Actor.type a).
      * destruct (Chat.companyId bd); try done. injection Hp as <- <-.
        by apply N.eqb_eq.
      * destruct (Chat.userId bd); try done. injection Hp as <- <-.
        by apply N.eqb_eq.
  - intros y [Hy _]%list_elem_of_In%filter_In. apply list_elem_of_In in Hy.
    apply elem_of_app in Hy as [Hy|[->|Hy]%elem_of_cons]; [|by left|];
      right; simpl; apply Hnew, elem_of_app; [by left|by right].
  - rewrite Hrest. simpl. by eexists _, _.
Qed.

Lemma startConversation_existing_bumps_lastMessageAt_witness :
  let db :=
    Store [Conversation.Doc 0 1 2 10 "Are you hiring?" 0 1 false false;
           Conversation.Doc 1 1 3 20 "" 0 0 false false] [] [] ∅ ∅ 2 in
  ∃ on on' rest,
    (Chat.startConversation Socket.init (Actor.Make Actor.user 1)
       (Chat.StartBody Chat.Missing (Chat.WellFormed 2)) 30 db).1
    = Json 201 (Conversation.Doc 0 1 2 30 "Are you hiring?" 0 1 false false, on)
    ∧ Chat.listConversations Socket.init (Actor.Make Actor.user 1)
        (Chat.startConversation Socket.init (Actor.Make Actor.user 1)
           (Chat.StartBody Chat.Missing (Chat.WellFormed 2)) 30 db).2
      = Json 200
          ((Conversation.Doc 0 1 2 30 "Are you hiring?" 0 1 false false, on')
             :: rest)
    ∧ (∃ first others,
         Chat.listConversations Socket.init (Actor.Make Actor.user 1) db
         = Json 200 (first :: others) ∧ Conversation._id first.1 = 1%N).
Proof.
  intros db.
  destruct (startConversation_existing_bumps_lastMessageAt Socket.init
              (Actor.Make Actor.user 1)
              (Chat.StartBody Chat.Missing (Chat.WellFormed 2)) 30 db 1 2
              (Conversation.Doc 0 1 2 10 "Are you hiring?" 0 1 false false)
              eq_refl eq_refl)
    as (before & after & on & d' & Hc & Hs & Ht & Hid & Hu & Hco & Hpre
        & Huu & Hcu & Hau & Hac & Hlist).
  assert (before = [] ∧ after = [Conversation.Doc 1 1 3 20 "" 0 0 false false])
    as [-> ->].
  { destruct before as [|x before]; simpl in Hc.
    - by injection Hc as <-.
    - injection Hc as _ Hc. destruct before as [|y before]; simpl in Hc.
      + injection Hc as Hd _. discriminate Hd.
      + injection Hc as _ Hc. by destruct before. }
  assert (d' = Conversation.Doc 0 1 2 30 "Are you hiring?" 0 1 false false)
    as ->.
  { destruct d'. simpl in *. congruence. }
  destruct (Hlist) with (reg' := Socket.init) as (on' & rest & Hl).
  { intros x [->|[]%elem_of_nil]%elem_of_cons. simpl. lia. }
  exists on, on', rest. split; [by rewrite Hs|]. split; [exact Hl|].
  eexists _, _. split; reflexivity.
Defined.

End restart.

(** ** Paging through the messages *)

Section paging.

Import ChatSpec.

Implicit Types (a : Actor.t) (db : store) (m : Message.doc)
  (l : list Message.doc).

Local Notation "'older'" :=
  (λ x y : Message.doc, (Message._id x < Message._id y)%N).
Local Notation "'newest_first'" :=
  (λ x y : Message.doc, (Message._id y <? Message._id x)%N).

Lemma filter_andb {A} (p q : A → bool) (l : list A) :
  List.filter (λ x, p x && q x) l = List.filter q (List.filter p l).
Proof.
  induction l as [|x l IH]; simpl; [done|].
  destruct (p x); simpl; [|done]. destruct (q x); by rewrite IH.
Qed.

Lemma filter_true {A} (p : A → bool) (l : list A) :
  (∀ x, x ∈ l → p x = true) → List.filter p l = l.
Proof.
  induction l as [|x l IH]; simpl; [done|]. intros H.
  rewrite H by by left. f_equal. apply IH. intros y Hy. apply H. by right.
Qed.

Lemma filter_false {A} (p : A → bool) (l : list A) :
  (∀ x, x ∈ l → p x = false) → List.filter p l = [].
Proof.
  induction l as [|x l IH]; simpl; [done|]. intros H.
  rewrite H by by left. apply IH. intros y Hy. apply H. by right.
Qed.

Lemma sorted_filter (p : Message.doc → bool) l :
  StronglySorted older l → StronglySorted older (List.filter p l).
Proof.
  induction 1 as [|x l Hs IH Hx]; simpl; [constructor|].
  destruct (p x); [|done]. constructor; [done|].
  apply Forall_forall. intros y [Hy _]%list_elem_of_In%filter_In.
  by apply (proj1 (Forall_forall _ _) Hx), list_elem_of_In.
Qed.

Lemma sorted_app_inv l1 l2 :
  StronglySorted older (l1 ++ l2) →
  StronglySorted older l1 ∧ StronglySorted older l2
  ∧ ∀ x y, x ∈ l1 → y ∈ l2 → older x y.
Proof.
  induction l1 as [|h l1 IH]; simpl.
  - intros H. split; [constructor|]. split; [done|].
    by intros x y ?%elem_of_nil.
  - intros H. apply StronglySorted_inv in H as [Hs Hh].
    destruct (IH Hs) as (H1 & H2 & H3). split; [|split; [done|]].
    + constructor; [done|]. apply Forall_forall. intros y Hy.
      apply (proj1 (Forall_forall _ _) Hh), elem_of_app. by left.
    + intros x y [->|Hx]%elem_of_cons Hy; [|by apply H3].
      apply (proj1 (Forall_forall _ _) Hh), elem_of_app. by right.
Qed.

(** Sorting newest first a table whose ids grow reverses it. *)
Lemma insert_by_oldest m l :
  (∀ y, y ∈ l → older m y) → Js.insert_by newest_first m l = l ++ [m].
Proof.
  induction l as [|h t IH]; simpl; [done|]. intros H.
  assert (newest_first h m = true) as ->.
  { apply N.ltb_lt, H. by left. }
  f_equal. apply IH. intros y Hy. apply H. by right.
Qed.

Lemma sort_by_sorted l :
  StronglySorted older l → Js.sort_by newest_first l = rev l.
Proof.
  unfold Js.sort_by. induction 1 as [|x l Hs IH Hx]; simpl; [done|].
  rewrite IH. apply insert_by_oldest. intros y Hy%list_elem_of_In.
  apply in_rev in Hy. by apply (proj1 (Forall_forall _ _) Hx), list_elem_of_In.
Qed.

Lemma rev_take_rev {A} n (l : list A) :
  rev (take n (rev l)) = drop (length l - n) l.
Proof. by rewrite firstn_rev, rev_involutive. Qed.

(** On a list whose ids grow, the rows older than one of its rows are the
    rows before it. *)
Lemma filter_older l1 m l2 :
  StronglySorted older (l1 ++ m :: l2) →
  List.filter (λ x, (Message._id x <? Message._id m)%N) (l1 ++ m :: l2) = l1.
Proof.
  intros (H1 & H2 & H3)%sorted_app_inv.
  apply StronglySorted_inv in H2 as [H2 Hm].
  rewrite List.filter_app. simpl. rewrite N.ltb_irrefl.
  rewrite filter_true, filter_false; [by rewrite app_nil_r| |].
  - intros x Hx. apply N.ltb_ge.
    pose proof (proj1 (Forall_forall _ _) Hm x Hx) as Ho.
    simpl in Ho. lia.
  - intros x Hx. apply N.ltb_lt, H3; [done|by left].
Qed.

Lemma lim_of_bound limit :
  not_negative limit →
  lim_of limit = page_bound limit ∧ (1 <= lim_of limit <= 100)%Z.
Proof.
  unfold lim_of, page_bound, not_negative.
  destruct limit as [| |n]; simpl; [lia..|].
  destruct (n =? 0)%Z eqn:E; [lia|]. apply Z.eqb_neq in E. lia.
Qed.

(** A page: the newest [lim] rows of what the cursor leaves, oldest
    first, and the id of its oldest row as the next cursor. *)
Lemma listMessages_page a conversationId cursor limit db convo :
  StronglySorted older (messages db) →
  Conversation.findById conversationId (conversations db) = Some convo →
  participant a convo →
  (1 <= lim_of limit)%Z →
  let rows := remaining conversationId db cursor in
  let page := drop (length rows - Z.to_nat (lim_of limit)) rows in
  Chat.listMessages a conversationId cursor limit db
  = Json 200 (Page.Make page
                match page with
                | m :: _ => Some (Message._id m)
                | [] => None
                end).
Proof.
  intros Hs Hfind Hp Hlim. simpl. unfold Chat.listMessages. rewrite Hfind.
  apply participant_member in Hp.
  replace (negb (Chat.isUser a convo) && negb (Chat.isCompany a convo))
    with false by (by destruct (Chat.isUser a convo), (Chat.isCompany a convo)).
  fold (lim_of limit). rewrite filter_andb. fold (history conversationId db).
  assert (List.filter
            (λ m, match cursor with
                  | Some c => (Message._id m <? c)%N
                  | None => true
                  end) (history conversationId db)
          = remaining conversationId db cursor) as ->.
  { unfold remaining. destruct cursor; [done|]. by apply filter_true. }
  rewrite (sort_by_sorted (remaining conversationId db cursor)).
  - unfold Chat.limit_rows.
    assert ((lim_of limit =? 0)%Z = false) as -> by (apply Z.eqb_neq; lia).
    rewrite Z.abs_eq by lia. by rewrite rev_take_rev.
  - unfold remaining, history. destruct cursor; by repeat apply sorted_filter.
Qed.

Lemma fetch_history_from a conversationId limit db convo fuel cursor newer :
  StronglySorted older (messages db) →
  Conversation.findById conversationId (conversations db) = Some convo →
  participant a convo →
  (1 <= lim_of limit)%Z →
  history conversationId db = remaining conversationId db cursor ++ newer →
  length (remaining conversationId db cursor) < fuel →
  fetch_history fuel a conversationId limit db cursor newer
  = Some (history conversationId db).
Proof.
  intros Hs Hfind Hp Hlim. revert cursor newer.
  assert (StronglySorted older (history conversationId db)) as Hh
    by by apply sorted_filter.
  induction fuel as [|fuel IH]; intros cursor newer Hsplit Hlen; [lia|].
  simpl. rewrite (listMessages_page _ _ _ _ _ _ Hs Hfind Hp Hlim). simpl.
  set (rows := remaining conversationId db cursor) in *.
  set (k := length rows - Z.to_nat (lim_of limit)).
  destruct (drop k rows) as [|m rest] eqn:Ed.
  - simpl. assert (rows = []) as Hr.
    { apply (f_equal length) in Ed. rewrite length_drop in Ed. simpl in Ed.
      destruct rows; [done|]. simpl in *. lia. }
    by rewrite Hsplit, Hr.
  - assert (∃ pre, rows = pre ++ m :: rest ∧ length pre < length rows)
      as (pre & Hrows & Hpre).
    { exists (take k rows). split; [by rewrite <- Ed, take_drop|].
      apply (f_equal length) in Ed. rewrite length_drop in Ed.
      simpl in Ed. rewrite length_take. lia. }
    clearbody rows. subst rows.
    assert (remaining conversationId db (Some (Message._id m)) = pre) as Hnext.
    { unfold remaining. rewrite Hsplit, <- app_assoc. simpl.
      apply filter_older. rewrite app_comm_cons, app_assoc, <- Hsplit.
      done. }
    apply IH.
    + rewrite Hnext, Hsplit, <- app_assoc. done.
    + rewrite Hnext. lia.
Qed.

(** C7, as the controller has it.  For a participant and a [limit] that
    is not negative, a page holds at most [min(limit, 100)] messages for a
    positive [limit] and at most 30 when [limit] is absent, zero or not a
    number; its messages are messages of the conversation in ascending
    order and its [nextCursor] is the id of the oldest of them, or null on
    an empty page.  Asking again with each cursor until it is null, and
    putting each page in front of the earlier ones, gives back the whole
    history of the conversation, oldest first and without repetition. *)
Theorem listMessages_pagination a conversationId limit db convo :
  ids_increase db →
  Conversation.findById conversationId (conversations db) = Some convo →
  participant a convo →
  not_negative limit →
  (page_bound limit <= 100)%Z
  ∧ (∀ cursor, ∃ page,
       Chat.listMessages a conversationId cursor limit db = Json 200 page
       ∧ (Z.of_nat (length (Page.messages page)) <= page_bound limit)%Z
       ∧ StronglySorted older (Page.messages page)
       ∧ (∀ m, m ∈ Page.messages page → m ∈ history conversationId db)
       ∧ Page.nextCursor page = Message._id <$> head (Page.messages page))
  ∧ StronglySorted older (history conversationId db)
  ∧ ∀ fuel, length (history conversationId db) < fuel →
      fetch_history fuel a conversationId limit db None []
      = Some (history conversationId db).
Proof.
  intros [Hs _] Hfind Hp [Hb Hlim]%lim_of_bound.
  assert (StronglySorted older (history conversationId db)) as Hh
    by by apply sorted_filter.
  split; [lia|]. split; [|split; [done|]].
  - intros cursor. eexists. split.
    { apply (listMessages_page _ _ _ _ _ _ Hs Hfind Hp). lia. }
    simpl. set (rows := remaining conversationId db cursor).
    assert (StronglySorted older rows) as Hr.
    { unfold rows, remaining. destruct cursor; [|done]. by apply sorted_filter. }
    rewrite <- (take_drop (length rows - Z.to_nat (lim_of limit)) rows) in Hr.
    apply sorted_app_inv in Hr as (_ & Hr & _).
    split; [rewrite length_drop; lia|]. split; [done|]. split.
    + intros m Hm.
      assert (m ∈ rows) as Hm'.
      { rewrite <- (take_drop (length rows - Z.to_nat (lim_of limit)) rows).
        apply elem_of_app. by right. }
      clear Hm. rename Hm' into Hm. unfold rows, remaining in Hm.
      destruct cursor; [|done].
      by apply list_elem_of_In, filter_In in Hm as [Hm%list_elem_of_In _].
    + by destruct (drop _ rows).
  - intros fuel Hfuel.
    apply (fetch_history_from _ _ _ _ convo); try done; [lia|].
    simpl. by rewrite app_nil_r.
Qed.

Lemma listMessages_pagination_witness :
  let msg id who text :=
    Message.Doc id 0 who None None text [] (Some 11%Z) None 12 in
  let db :=
    Store [Conversation.Doc 0 1 2 12 "three" 1 2 false false]
          [msg 1%N Actor.user "one"; msg 3%N Actor.company "two";
           msg 5%N Actor.user "three"]
          [] ∅ ∅ 7 in
  fetch_history 4 (Actor.Make Actor.user 1) 0 (Chat.Int 2) db None []
  = Some [msg 1%N Actor.user "one"; msg 3%N Actor.company "two";
          msg 5%N Actor.user "three"].
Proof.
  intros msg db.
  apply (listMessages_pagination (Actor.Make Actor.user 1) 0 (Chat.Int 2) db
           (Conversation.Doc 0 1 2 12 "three" 1 2 false false)).
  - split; simpl; repeat constructor; simpl; lia.
  - reflexivity.
  - left. split; reflexivity.
  - simpl. lia.
  - simpl. lia.
Defined.

(** C7 as stated fails for [limit=0]: the page holds a message although
    [min(0, 100)] is zero, the controller falling back on 30. *)
Lemma limit_zero_asks_for_thirty :
  let db :=
    Store [Conversation.Doc 0 1 2 12 "one" 0 1 false false]
          [Message.Doc 1 0 Actor.user (Some 1%N) None "one" []
             (Some 11%Z) None 12]
          [] ∅ ∅ 2 in
  ∃ page,
    Chat.listMessages (Actor.Make Actor.user 1) 0 None (Chat.Int 0) db
    = Json 200 page
    ∧ ¬ (Z.of_nat (length (Page.messages page)) <= Z.min 0 100)%Z.
Proof. intros db. eexists. split; [reflexivity|]. simpl. lia. Qed.

(** The hypothesis on ids holds of the empty store and is kept by every
    handler that writes. *)
Lemma ids_increase_empty : ids_increase empty_store.
Proof. split; constructor. Qed.

Lemma sorted_snoc l m :
  StronglySorted older l → Forall (λ x, older x m) l →
  StronglySorted older (l ++ [m]).
Proof.
  induction 1 as [|x l Hs IH Hx]; simpl.
  - intros _. repeat constructor.
  - intros [Hxm Hl]%Forall_cons. constructor; [by apply IH|].
    apply Forall_app. split; [done|]. by constructor.
Qed.

Lemma ids_increase_sendMessage reg a conversationId text file now savedAt
    notifiedAt db :
  ids_increase db →
  ids_increase
    (Chat.sendMessage reg a conversationId text file now savedAt notifiedAt
       db).2.
Proof.
  intros [Hs Hb].
  destruct (Conversation.findById conversationId (conversations db))
    as [convo|] eqn:Hfind; [|by rewrite sendMessage_unknown].
  destruct (participant_dec a convo) as [Hp|Hp];
    [|by rewrite (sendMessage_forbidden _ _ _ _ _ _ _ _ _ _ Hfind Hp)].
  rewrite (sendMessage_participant _ _ _ _ _ _ _ _ _ _ Hfind Hp).
  destruct (stored_text text file); [|done]. cbv zeta. simpl. split; simpl.
  - by apply sorted_snoc.
  - apply Forall_app. split.
    + eapply Forall_impl; [exact Hb|]. intros m Hm. simpl in *.
      destruct (online _ _); lia.
    + constructor; [|constructor]. simpl. destruct (online _ _); lia.
Qed.

Lemma ids_increase_markRead a conversationId now db :
  ids_increase db → ids_increase (Chat.markRead a conversationId now db).2.
Proof.
  intros [Hs Hb].
  destruct (Conversation.findById conversationId (conversations db))
    as [convo|] eqn:Hfind; [|unfold Chat.markRead; by rewrite Hfind].
  destruct (participant_dec a convo) as [Hp|Hp].
  - rewrite (markRead_participant _ _ _ _ _ Hfind Hp). simpl.
    unfold Message.updateMany.
    assert (∀ m, Message._id
                   (if unread_from_other a conversationId m
                    then Message.set_readAt now m else m) = Message._id m)
      as Hid by (intros m; by destruct (unread_from_other _ _ m)).
    split; simpl.
    + clear Hb. induction Hs as [|x l Hs IH Hx]; simpl; constructor; [done|].
      apply Forall_fmap. eapply Forall_impl; [exact Hx|].
      intros m Hm. simpl. by rewrite !Hid.
    + apply Forall_fmap. eapply Forall_impl; [exact Hb|].
      intros m Hm. simpl. by rewrite Hid.
  - unfold Chat.markRead. rewrite Hfind.
    rewrite participant_markRead in Hp. by destruct (_ || _).
Qed.

Lemma ids_increase_startConversation reg a bd now db :
  ids_increase db → ids_increase (Chat.startConversation reg a bd now db).2.
Proof.
  intros [Hs Hb]. unfold Chat.startConversation.
  assert (∀ u c,
    ids_increase
      (let '(convo, table, inserted) :=
         Conversation.findOneAndUpdate u c now (nextId db) (conversations db) in
       if inserted then bump (with_conversations table db)
       else with_conversations table db)) as H.
  { intros u c.
    destruct (Conversation.findOneAndUpdate _ _ _ _ _) as [[convo table] []];
      split; simpl; try done.
    eapply Forall_impl; [exact Hb|]. intros m Hm. simpl in *. lia. }
  destruct (Actor.type a).
  - destruct (Chat.companyId bd) as [| |c]; simpl; try done.
    specialize (H (Actor.id a) c).
    by destruct (Conversation.findOneAndUpdate _ _ _ _ _) as [[convo table] ins].
  - destruct (Chat.userId bd) as [| |u]; simpl; try done.
    specialize (H u (Actor.id a)).
    by destruct (Conversation.findOneAndUpdate _ _ _ _ _) as [[convo table] ins].
Qed.

End paging.


(** * Further properties *)

(** ** The registry and the delivery helpers *)

Section delivery.

Import Socket Presence Delivery Extra.

Implicit Types (st : state) (sid k : string) (p : payload).

Lemma no_empty_set_register st sid p :
  no_empty_set st → no_empty_set (register sid p st).1.
Proof.
  intros H k set. rewrite register_lookup.
  destruct (resolve p) as [info|]; [|apply H].
  destruct (decide (actorKey info = k)); [|apply H].
  intros [= <-]. set_solver.
Qed.

Lemma no_empty_set_disconnect st sid :
  no_empty_set st → no_empty_set (disconnect sid st).1.
Proof.
  intros H k set. rewrite disconnect_lookup.
  destruct (connectedUsers st !! k) as [set0|]; [|done].
  destruct (decide (size (set0 ∖ {[sid]}) = 0)) as [|Hne]; [done|].
  intros [= <-] He. apply Hne. by rewrite He, size_empty.
Qed.

Lemma no_empty_set_run st ops :
  no_empty_set st → no_empty_set (run st ops).1.
Proof.
  revert st. induction ops as [|o ops IH]; intros st H; simpl; [done|].
  apply IH. destruct o; [by apply no_empty_set_register|
                         by apply no_empty_set_disconnect].
Qed.

Lemma registry_keys_nonempty ops k set :
  connectedUsers (run init ops).1 !! k = Some set → ∃ sid, sid ∈ set.
Proof.
  intros Hk. apply set_choose_L.
  revert Hk. apply no_empty_set_run. intros k' set' H. simpl in H.
  by rewrite lookup_empty in H.
Qed.

(** X1. After every run of registrations and disconnections the
    registry holds no empty set, so that [isActorOnline] answers what
    [connectedUsers.has(key)] alone would. *)
Theorem registry_has_no_empty_set (ops : list op) (type id : string) :
  no_empty_set (run init ops).1
  ∧ (isActorOnline type id (run init ops).1 = true
     ↔ is_Some (connectedUsers (run init ops).1 !! keyForActor type id)).
Proof.
  assert (no_empty_set (run init ops).1) as H.
  { apply no_empty_set_run. intros k set Hk. simpl in Hk.
    by rewrite lookup_empty in Hk. }
  split; [done|]. unfold isActorOnline.
  destruct (connectedUsers _ !! keyForActor type id) as [set|] eqn:E.
  - rewrite bool_decide_eq_true. split; [by eexists|]. intros _.
    apply H in E. destruct (decide (size set = 0)) as [He|]; [|lia].
    by apply size_empty_inv, leibniz_equiv in He.
  - split; [done|]. by intros [? ?].
Qed.

Lemma pushed_to_each sid event event' (S : gset string) :
  pushed (ToSocket sid event) (to_each event' S)
  = if bool_decide (sid ∈ S ∧ event = event') then 1 else 0.
Proof.
  unfold pushed, to_each.
  assert (∀ l : list string, NoDup l →
            length (List.filter (λ q, bool_decide (q = ToSocket sid event))
                      (map (λ s, ToSocket s event') l))
            = if bool_decide (sid ∈ l ∧ event = event') then 1 else 0) as H.
  { induction 1 as [|x l Hx Hnd IH].
    - cbn [map List.filter length]. case_bool_decide as Hc; [|done].
      destruct Hc as [?%elem_of_nil _]. done.
    - cbn [map List.filter].
      destruct (decide (ToSocket x event' = ToSocket sid event)) as [Heq|Hne].
      + rewrite (bool_decide_eq_true_2 _ Heq). injection Heq as -> ->.
        cbn [length]. rewrite IH.
        rewrite (bool_decide_eq_false_2 (sid ∈ l ∧ _)) by (by intros [? _]).
        rewrite bool_decide_eq_true_2; [done|]. split; [by left|done].
      + rewrite (bool_decide_eq_false_2 _ Hne). rewrite IH.
        apply (f_equal (λ b : bool, if b then 1 else 0)).
        apply bool_decide_ext. rewrite elem_of_cons. split; [tauto|].
        intros [[->|?] ->]; [done|tauto]. }
  rewrite (H (elements S)) by apply NoDup_elements.
  apply (f_equal (λ b : bool, if b then 1 else 0)).
  apply bool_decide_ext. by rewrite elem_of_elements.
Qed.

Lemma pushed_app q l1 l2 : pushed q (l1 ++ l2) = pushed q l1 + pushed q l2.
Proof. unfold pushed. by rewrite List.filter_app, length_app. Qed.

(** X2. [emitChatEvent] pushes the event once to every socket registered
    for the user and once to every socket registered for the company,
    and once to the room of the conversation when the payload names one;
    its fallback branch never adds a push, and nothing goes to all. *)
Theorem emitChatEvent_pushes event userId companyId (pl : chat_payload) st
    sid e :
  pushed (ToSocket sid e) (emitChatEvent true event userId companyId pl st)
  = (if bool_decide (sid ∈ sockets_of st (keyForActor "user" userId)
                     ∧ e = event) then 1 else 0)
    + (if bool_decide (sid ∈ sockets_of st (keyForActor "company" companyId)
                       ∧ e = event) then 1 else 0)
  ∧ (∀ room,
       pushed (ToRoom room e)
              (emitChatEvent true event userId companyId pl st)
       = if bool_decide (truthy (conversationId pl) = true
                         ∧ room = "conversation:" +:+ conversationId pl
                         ∧ e = event) then 1 else 0)
  ∧ pushed (ToAll e) (emitChatEvent true event userId companyId pl st) = 0.
Proof.
  assert (∀ key, match connectedUsers st !! key with
                 | Some socketSet => to_each event socketSet
                 | None => []
                 end = to_each event (sockets_of st key)) as Hset.
  { intros key. unfold sockets_of.
    destruct (connectedUsers st !! key); [done|]. reflexivity. }
  assert (∀ q S, (∀ s ev, q ≠ ToSocket s ev) → pushed q (to_each event S) = 0)
    as Hother.
  { intros q S Hq. unfold pushed, to_each.
    induction (elements S) as [|x l IH]; simpl; [done|].
    rewrite bool_decide_eq_false_2; [done|]. intros Heq. by eapply Hq. }
  cbv zeta. unfold emitChatEvent. simpl. rewrite !Hset, app_nil_r.
  set (U := sockets_of st (keyForActor "user" userId)).
  set (C := sockets_of st (keyForActor "company" companyId)).
  assert ((if bool_decide (senderType pl = Some "user")
              && (length (to_each event U ++ to_each event C) =? 0)%nat
              && truthy userId
           then to_each event U else []) = []) as ->.
  { destruct (bool_decide _); simpl; [|done].
    destruct (length _ =? 0)%nat eqn:El; simpl; [|done].
    apply Nat.eqb_eq in El. rewrite length_app in El.
    destruct (to_each event U); [by destruct (truthy userId)|simpl in El; lia]. }
  rewrite app_nil_r. split; [|split].
  - rewrite !pushed_app, !pushed_to_each.
    assert (pushed (ToSocket sid e)
              (if truthy (conversationId pl)
               then [ToRoom ("conversation:" +:+ conversationId pl) event]
               else []) = 0) as ->
      by by destruct (truthy _).
    lia.
  - intros room. rewrite !pushed_app, !Hother by done. cbn [Nat.add].
    destruct (truthy (conversationId pl)).
    + unfold pushed. cbn [List.filter].
      destruct (decide (ToRoom ("conversation:" +:+ conversationId pl)
                          event = ToRoom room e)) as [Heq|Hne].
      * rewrite (bool_decide_eq_true_2 _ Heq). injection Heq as <- <-.
        by rewrite bool_decide_eq_true_2.
      * rewrite (bool_decide_eq_false_2 _ Hne).
        rewrite bool_decide_eq_false_2; [done|].
        intros (_ & -> & ->). done.
    + rewrite bool_decide_eq_false_2; [done|]. by intros [? _].
  - rewrite !pushed_app, !Hother by done. by destruct (truthy _).
Qed.

Lemma elem_of_sockets_of st k sid : sid ∈ sockets_of st k ↔ member st k sid.
Proof.
  unfold sockets_of, member. destruct (connectedUsers st !! k) as [set|]; simpl.
  - split; [by eexists|]. by intros (? & [= <-] & ?).
  - split; [by intros ?%not_elem_of_empty|]. by intros (? & ? & _).
Qed.

(** X3. A notification push goes once to every socket that is live for
    the user after the run, and to no other socket; before [initSocket]
    nothing is pushed. *)
Theorem emitNotification_reaches_live (ops : list op) (userId sid e : string) :
  pushed (ToSocket sid e) (emitNotification true userId (run init ops).1)
  = (if bool_decide
          (sid ∈ sockets_of (run init ops).1 (keyForActor "user" userId)
           ∧ e = "notification") then 1 else 0)
  ∧ (sid ∈ sockets_of (run init ops).1 (keyForActor "user" userId)
     ↔ live ops "user" userId sid)
  ∧ emitNotification false userId (run init ops).1 = [].
Proof.
  split; [|split; [|done]].
  - unfold emitNotification, sockets_of. cbn [negb].
    destruct (connectedUsers _ !! keyForActor "user" userId) as [set|].
    + apply pushed_to_each.
    + rewrite bool_decide_eq_false_2; [done|].
      by intros [?%not_elem_of_empty _].
  - rewrite elem_of_sockets_of, live_live_key. apply member_run.
Qed.

End delivery.

Section online_actors.

Import Socket Presence Delivery Extra.

Implicit Types (st : state) (sid k : string).

Lemma split_colon_cons (s : string) :
  ∃ h t, split_colon s = h :: t.
Proof.
  induction s as [|c s (h & t & IH)]; simpl; [by eexists _, _|].
  destruct (Ascii.eqb c ":"); [by eexists _, _|].
  rewrite IH. by eexists _, _.
Qed.

Lemma split_colon_key (type id : string) :
  split_colon (keyForActor type id)
  = (if String.eqb type "company" then "c" else "u")
      :: split_colon id.
Proof. unfold keyForActor. by destruct (String.eqb type "company"). Qed.

Lemma split_colon_plain (id : string) :
  has_colon id = false → split_colon id = [id].
Proof.
  unfold has_colon. induction id as [|c s IH]; simpl; [done|].
  destruct (Ascii.eqb c ":"); simpl; [done|]. intros H. by rewrite IH.
Qed.

(** Every key of a registry reached by a run is the key of a principal. *)
Lemma run_keys ops k set :
  connectedUsers (run init ops).1 !! k = Some set →
  ∃ type id, k = keyForActor type id.
Proof.
  intros Hk.
  destruct (registry_keys_nonempty ops k set Hk) as [sid Hs].
  assert (member (run init ops).1 k sid) as Hm by by exists set.
  apply member_run in Hm as (b & p & a & info & _ & Hr & <- & _).
  apply resolve_principal in Hr as [_ ->]. by eexists _, _.
Qed.

(** X4. After every run, [getAllOnlineActors] lists, for each online
    principal and for nothing else, its kind ("company", or "user" for any
    other type) and the part of its id before the first colon; an id
    without colon is listed as it is. *)
Theorem getAllOnlineActors_lists_online (ops : list op) (t : string)
    (i : option string) :
  (OnlineActor t i ∈ getAllOnlineActors (run init ops).1
   ↔ ∃ type id,
       isActorOnline type id (run init ops).1 = true
       ∧ t = (if String.eqb type "company" then "company" else "user")
       ∧ i = Some (first_segment id))
  ∧ (∀ id, has_colon id = false → first_segment id = id).
Proof.
  split.
  2:{ intros id H. unfold first_segment. by rewrite split_colon_plain. }
  unfold getAllOnlineActors. rewrite list_elem_of_omap. split.
  - intros ([k set] & Hin%elem_of_map_to_list & Hf).
    destruct (bool_decide (0 < size set)) eqn:Hsz; [|done].
    destruct (run_keys _ _ _ Hin) as (type & id & ->).
    rewrite split_colon_key in Hf. simpl in Hf. injection Hf as <- <-.
    exists type, id. split; [|split].
    + unfold isActorOnline. by rewrite Hin.
    + by destruct (String.eqb type "company").
    + unfold first_segment. by destruct (split_colon_cons id) as (h & tl & ->).
  - intros (type & id & Hon & -> & ->). unfold isActorOnline in Hon.
    destruct (connectedUsers _ !! keyForActor type id) as [set|] eqn:E;
      [|done].
    exists (keyForActor type id, set). split; [by apply elem_of_map_to_list|].
    rewrite Hon, split_colon_key. simpl. f_equal. f_equal.
    + by destruct (String.eqb type "company").
    + unfold first_segment. by destruct (split_colon_cons id) as (h & tl & ->).
Qed.

End online_actors.

Section join.

Import Socket Presence Delivery Extra ChatSpec.

Implicit Types (st : state) (sid : string) (db : store).


Lemma length_hex_of d (n : N) acc :
  String.length (Js.hex_of d n acc) = d + String.length acc.
Proof.
  revert n acc. induction d as [|d IH]; intros n acc; simpl; [done|].
  rewrite IH. simpl. lia.
Qed.








End join.

(** ** More on sending *)

Section send_more.

Import ChatSpec Extra.

Implicit Types (a : Actor.t) (convo : Conversation.doc) (db : store)
  (reg : Socket.state).

(** X6. For a participant of an existing conversation, [sendMessage]
    answers 400 exactly when no file comes with the request and the text
    is missing, empty or longer than 4000 characters; and whenever the
    reply is not a 201, whoever asks, the store is left untouched. *)
Theorem sendMessage_refusals reg a conversationId text file now savedAt
    notifiedAt db :
  (∀ convo,
     Conversation.findById conversationId (conversations db) = Some convo →
     participant a convo →
     ((Chat.sendMessage reg a conversationId text file now savedAt
                        notifiedAt db).1 = Fail 400 "Invalid text"
      ↔ file = None
        ∧ (text = None
           ∨ ∃ t, text = Some t ∧ (t = "" ∨ 4000 < String.length t))))
  ∧ ((∀ m, (Chat.sendMessage reg a conversationId text file now savedAt
                             notifiedAt db).1 ≠ Json 201 m) →
     (Chat.sendMessage reg a conversationId text file now savedAt
                       notifiedAt db).2 = db).
Proof.
  split.
  - intros convo Hfind Hp.
    rewrite (sendMessage_participant _ _ _ _ _ _ _ _ _ _ Hfind Hp).
    unfold stored_text. destruct file as [f|]; simpl.
    { split; [done|]. by intros [? _]. }
    destruct text as [t|]; simpl; [|split; [by eauto|done]].
    destruct (nonempty t) eqn:Ene; simpl.
    + apply nonempty_true in Ene.
      destruct (String.length t <=? 4000)%nat eqn:El; simpl.
      * apply Nat.leb_le in El. split; [done|].
        intros [_ [?|(? & [= <-] & [?|?])]]; try done. lia.
      * apply Nat.leb_gt in El. split; [|done]. intros _. split; [done|].
        right. exists t. split; [done|]. by right.
    + unfold nonempty in Ene. apply negb_false_iff, String.eqb_eq in Ene.
      split; [|done]. intros _. split; [done|]. right. exists t.
      split; [done|]. by left.
  - intros Hno.
    destruct (Conversation.findById conversationId (conversations db))
      as [convo|] eqn:Hfind; [|by rewrite sendMessage_unknown].
    destruct (participant_dec a convo) as [Hp|Hp];
      [|by rewrite (sendMessage_forbidden _ _ _ _ _ _ _ _ _ _ Hfind Hp)].
    rewrite (sendMessage_participant _ _ _ _ _ _ _ _ _ _ Hfind Hp) in *.
    destruct (stored_text text file); [|done].
    cbv zeta in Hno. simpl in Hno. exfalso. by eapply Hno.
Qed.

Lemma sendMessage_refusals_witness :
  let db := Store [Conversation.fresh 0 1 2 10] [] [] ∅ ∅ 1 in
  (Chat.sendMessage Socket.init (Actor.Make Actor.user 1) 0 (Some "") None
     11 12 13 db).1 = Fail 400 "Invalid text".
Proof.
  intros db.
  apply (proj1 (sendMessage_refusals Socket.init (Actor.Make Actor.user 1) 0
                  (Some "") None 11 12 13 db)
           (Conversation.fresh 0 1 2 10) eq_refl
           (or_introl (conj eq_refl eq_refl))).
  split; [reflexivity|]. right. exists "". split; [reflexivity|by left].
Defined.

(** X7. An accepted message is stored last in the table under the id
    the counter held, unread and stamped as delivered; its text is
    trimmed and at most 4000 characters long; it names the sender's side
    and only that side's id; it carries one attachment if a file came
    with the request, an image exactly when the file's MIME type starts
    with "image/", and none otherwise. *)
Theorem sendMessage_stores_message reg a conversationId text file now
    savedAt notifiedAt db m db' :
  Chat.sendMessage reg a conversationId text file now savedAt notifiedAt db
  = (Json 201 m, db') →
  messages db' = messages db ++ [m]
  ∧ Message._id m = nextId db
  ∧ Message.conversation m = conversationId
  ∧ Message.readAt m = None
  ∧ Message.deliveredAt m = Some now
  ∧ Message.createdAt m = savedAt
  ∧ Js.trim (Message.text m) = Message.text m
  ∧ String.length (Message.text m) ≤ 4000
  ∧ Message.senderType m = Actor.type a
  ∧ (Message.senderUser m, Message.senderCompany m)
    = match Actor.type a with
      | Actor.user => (Some (Actor.id a), None)
      | Actor.company => (None, Some (Actor.id a))
      end
  ∧ match file with
    | None => Message.attachments m = []
    | Some f =>
        ∃ att, Message.attachments m = [att]
               ∧ Message.url att = "/uploads/chat/" +:+ Upload.filename f
               ∧ Message.name att = Upload.originalname f
               ∧ Message.size att = Upload.size f
               ∧ (Message.type att = Message.image
                  ↔ Js.startsWith "image/" (Upload.mimetype f) = true)
    end.
Proof.
  intros H. destruct (sendMessage_accepted _ _ _ _ _ _ _ _ _ _ _ H)
    as (convo & Hfind & Hp).
  rewrite (sendMessage_participant _ _ _ _ _ _ _ _ _ _ Hfind Hp) in H.
  destruct (stored_text text file) as [stored|] eqn:Hs; [|done].
  cbv zeta in H. injection H as <- <-. simpl.
  assert (Js.trim stored = stored ∧ String.length stored ≤ 4000) as [Ht Hl].
  { unfold stored_text in Hs. destruct file as [f|].
    - injection Hs as <-. split; [apply trim_idemp|].
      pose proof (length_trim (Js.slice0 4000 (default "" text))).
      pose proof (length_slice0 4000 (default "" text)). lia.
    - destruct text as [t|]; [|done].
      destruct (nonempty t); simpl in Hs; [|done].
      destruct (String.length t <=? 4000)%nat eqn:El; [|done].
      injection Hs as <-. apply Nat.leb_le in El.
      split; [apply trim_idemp|]. pose proof (length_trim t). lia. }
  do 9 (split; [done|]). split.
  { unfold Actor.is_user, Actor.is_company. by destruct (Actor.type a). }
  destruct file as [f|]; [|done]. eexists. split; [done|]. simpl.
  do 3 (split; [done|]). by destruct (Js.startsWith _ _).
Qed.

Lemma sendMessage_stores_message_witness :
  ∃ m,
    messages
      (Chat.sendMessage Socket.init (Actor.Make Actor.user 1) 0
         (Some "  Are you hiring?  ") None 11 12 13
         (Store [Conversation.fresh 0 1 2 10] [] [] ∅ ∅ 1)).2 = [m]
    ∧ Message.text m = "Are you hiring?".
Proof.
  eexists. split.
  - apply (sendMessage_stores_message Socket.init (Actor.Make Actor.user 1) 0
             (Some "  Are you hiring?  ") None 11 12 13
             (Store [Conversation.fresh 0 1 2 10] [] [] ∅ ∅ 1) _ _ eq_refl).
  - reflexivity.
Defined.

End send_more.

(** ** What the requests keep *)

Section effects.

Import ChatSpec Extra Server.

Implicit Types (a : Actor.t) (c d convo : Conversation.doc) (db : store)
  (m : Message.doc) (table : list Conversation.doc).

Lemma remove_first_filter (id : N) table :
  NoDup (map Conversation._id table) →
  Cascade.remove_first (λ c, (Conversation._id c =? id)%N) table
  = List.filter (λ c, negb (Conversation._id c =? id)%N) table.
Proof.
  induction table as [|c table IH]; simpl; [done|].
  intros [Hc Hnd]%NoDup_cons. destruct (Conversation._id c =? id)%N eqn:E.
  - simpl. apply N.eqb_eq in E. symmetry. apply filter_true.
    intros x Hx. apply negb_true_iff, N.eqb_neq. intros Hid. apply Hc.
    rewrite E, <- Hid. by apply list_elem_of_fmap_2.
  - simpl. by rewrite IH.
Qed.

Lemma in_ids_spec (ids : list N) m :
  Cascade.in_ids ids m = true ↔ Message.conversation m ∈ ids.
Proof.
  unfold Cascade.in_ids. rewrite existsb_exists. split.
  - intros (i & Hi%list_elem_of_In & ->%N.eqb_eq). done.
  - intros H. exists (Message.conversation m).
    split; [by apply list_elem_of_In|apply N.eqb_refl].
Qed.

(** The conversation rows a deletion by owner removes are the rows whose
    id is among the ids of that owner's rows. *)
Lemma filter_by_owner (owner : Conversation.doc → bool) table :
  NoDup (map Conversation._id table) →
  List.filter (λ c, negb (owner c)) table
  = List.filter
      (λ c, negb (bool_decide
                    (Conversation._id c
                     ∈ map Conversation._id (List.filter owner table))))
      table.
Proof.
  intros Hnd. apply filter_ext_in. intros c Hc%list_elem_of_In. f_equal.
  destruct (owner c) eqn:E.
  - symmetry. apply bool_decide_eq_true. apply list_elem_of_fmap_2.
    by apply list_elem_of_In, filter_In; split; [apply list_elem_of_In|].
  - symmetry. apply bool_decide_eq_false.
    intros (c0 & Hid & Hc0)%list_elem_of_fmap.
    apply list_elem_of_In, filter_In in Hc0 as [Hc0%list_elem_of_In Ho].
    assert (c = c0) as ->; [|congruence].
    clear -Hnd Hc Hc0 Hid. induction table as [|x table IH]; simpl in *.
    { by apply elem_of_nil in Hc. }
    apply NoDup_cons in Hnd as [Hx Hnd].
    apply elem_of_cons in Hc as [->|Hc], Hc0 as [->|Hc0]; try done.
    + exfalso. apply Hx. rewrite Hid. by apply list_elem_of_fmap_2.
    + exfalso. apply Hx. rewrite <- Hid. by apply list_elem_of_fmap_2.
    + by apply IH.
Qed.

Lemma startConversation_effect reg a body now db :
  effect db (Chat.startConversation reg a body now db).2.
Proof.
  unfold Chat.startConversation.
  assert (∀ u co : N,
    effect db
      (let '(convo, table, inserted) :=
         Conversation.findOneAndUpdate u co now (nextId db) (conversations db) in
       if inserted then bump (with_conversations table db)
       else with_conversations table db)) as H.
  { intros u co. unfold Conversation.findOneAndUpdate.
    destruct (Conversation.update_first _ _ _) as [[r t]|] eqn:E.
    - apply update_first_Some in E as (before & d & after & Ht & _ & -> & ->).
      by eapply effect_touch.
    - by eapply effect_insert. }
  destruct (Actor.type a).
  - destruct (Chat.companyId body) as [| |co]; simpl;
      try (by apply effect_none).
    specialize (H (Actor.id a) co).
    by destruct (Conversation.findOneAndUpdate _ _ _ _ _) as [[convo table] ins].
  - destruct (Chat.userId body) as [| |u]; simpl;
      try (by apply effect_none).
    specialize (H u (Actor.id a)).
    by destruct (Conversation.findOneAndUpdate _ _ _ _ _) as [[convo table] ins].
Qed.

Lemma sendMessage_effect reg a conversationId text file now savedAt
    notifiedAt db :
  effect db
    (Chat.sendMessage reg a conversationId text file now savedAt notifiedAt
       db).2.
Proof.
  destruct (Conversation.findById conversationId (conversations db))
    as [convo|] eqn:Hfind;
    [|rewrite sendMessage_unknown by done; by apply effect_none].
  destruct (participant_dec a convo) as [Hp|Hp];
    [|rewrite (sendMessage_forbidden _ _ _ _ _ _ _ _ _ _ Hfind Hp);
      by apply effect_none].
  rewrite (sendMessage_participant _ _ _ _ _ _ _ _ _ _ Hfind Hp).
  destruct (stored_text text file) as [stored|]; [|by apply effect_none].
  cbv zeta. eapply effect_send with (a := a) (convo := convo);
    [..|simpl; reflexivity|]; simpl; try done.
  destruct (online _ _); lia.
Qed.

Lemma markRead_effect a conversationId now db :
  effect db (Chat.markRead a conversationId now db).2.
Proof.
  destruct (Conversation.findById conversationId (conversations db))
    as [convo|] eqn:Hfind.
  - destruct (participant_dec a convo) as [Hp|Hp].
    + rewrite (markRead_participant _ _ _ _ _ Hfind Hp).
      by eapply effect_read with (a := a) (convo := convo) (now := now)
                                 (conversationId := conversationId).
    + unfold Chat.markRead. rewrite Hfind.
      rewrite participant_markRead in Hp. destruct (_ || _); [done|].
      by apply effect_none.
  - unfold Chat.markRead. rewrite Hfind. by apply effect_none.
Qed.

(** Every request has one of the effects. *)
Lemma handle_effect db (r : request) :
  NoDup (map Conversation._id (conversations db)) → effect db (handle db r).
Proof.
  intros Hnd. destruct r; simpl.
  - apply startConversation_effect.
  - apply sendMessage_effect.
  - apply markRead_effect.
  - unfold Notifications.markAsRead.
    destruct (Notifications.actor r); [|by apply effect_none].
    destruct (find _ _); by apply effect_none.
  - unfold Notifications.markAllAsRead.
    destruct (Notifications.actor r); by apply effect_none.
  - unfold Notifications.clearAllNotifications.
    destruct (Notifications.actor r); [|by apply effect_none].
    destruct id; by apply effect_none.
  - unfold Cascade.deleteConversation. simpl.
    apply effect_delete with (gone := λ i, (i =? conversationId)%N); simpl;
      [by apply remove_first_filter|done..].
  - unfold Cascade.deleteUser.
    apply effect_delete with
      (gone := λ i, bool_decide
                      (i ∈ map Conversation._id
                             (List.filter
                                (λ c, (Conversation.user c =? userId)%N)
                                (conversations db)))); simpl; [| |done].
    + by apply (filter_by_owner (λ c, (Conversation.user c =? userId)%N)).
    + apply filter_ext. intros m. f_equal. apply eq_true_iff_eq.
      by rewrite in_ids_spec, bool_decide_eq_true.
  - unfold Cascade.deleteCompany.
    apply effect_delete with
      (gone := λ i, bool_decide
                      (i ∈ map Conversation._id
                             (List.filter
                                (λ c, (Conversation.company c =? companyId)%N)
                                (conversations db)))); simpl; [| |done].
    + by apply (filter_by_owner (λ c, (Conversation.company c =? companyId)%N)).
    + generalize (map Conversation._id
                    (List.filter (λ c, (Conversation.company c =? companyId)%N)
                                 (conversations db))).
      intros [|i ids].
      * simpl. symmetry. apply filter_true. intros m _.
        first [done
              |apply negb_true_iff, bool_decide_eq_false;
               by intros ?%elem_of_nil].
      * simpl. apply filter_ext. intros m. f_equal. apply eq_true_iff_eq.
        change (Cascade.in_ids (i :: ids) m = true
                ↔ bool_decide (Message.conversation m ∈ i :: ids) = true).
        by rewrite in_ids_spec, bool_decide_eq_true.
Qed.

End effects.

Section kept.

Import ChatSpec Extra Server.

Implicit Types (a : Actor.t) (c d convo : Conversation.doc) (db : store)
  (m : Message.doc) (table : list Conversation.doc).

(** Two rows of the same conversation: same id and same parties. *)
Local Notation "'same_party'" :=
  (λ c c' : Conversation.doc,
     Conversation._id c' = Conversation._id c
     ∧ Conversation.user c' = Conversation.user c
     ∧ Conversation.company c' = Conversation.company c).

Lemma party_ok_same c c' m :
  same_party c c' → party_ok c m → party_ok c' m.
Proof.
  intros (Hi & Hu & Hc) [Hm Hs]. split; [congruence|].
  destruct (Message.senderType m); by rewrite ?Hu, ?Hc.
Qed.

Lemma unique_by_id table c d :
  NoDup (map Conversation._id table) → c ∈ table → d ∈ table →
  Conversation._id c = Conversation._id d → c = d.
Proof.
  induction table as [|x table IH]; simpl.
  { by intros _ ?%elem_of_nil. }
  intros [Hx Hnd]%NoDup_cons [->|Hc]%elem_of_cons [->|Hd]%elem_of_cons Hid;
    try done.
  - exfalso. apply Hx. rewrite Hid. by apply list_elem_of_fmap_2.
  - exfalso. apply Hx. rewrite <- Hid. by apply list_elem_of_fmap_2.
  - by apply IH.
Qed.

Lemma save_ids d table :
  map Conversation._id (Conversation.save d table) = map Conversation._id table.
Proof.
  unfold Conversation.save. rewrite map_map. apply map_ext_in.
  intros c _. destruct (Conversation._id c =? Conversation._id d)%N eqn:E;
    [|done]. by apply N.eqb_eq in E.
Qed.

Lemma elem_of_save c d table :
  c ∈ Conversation.save d table ↔
  (c = d ∧ ∃ x, x ∈ table ∧ Conversation._id x = Conversation._id d)
  ∨ (c ∈ table ∧ Conversation._id c ≠ Conversation._id d).
Proof.
  unfold Conversation.save. rewrite list_elem_of_fmap. split.
  - intros (x & -> & Hx).
    destruct (Conversation._id x =? Conversation._id d)%N eqn:E.
    + apply N.eqb_eq in E. left. eauto.
    + apply N.eqb_neq in E. by right.
  - intros [(-> & x & Hx & Hid)|(Hc & Hne)].
    + exists x. split; [|done]. apply N.eqb_eq in Hid. by rewrite Hid.
    + exists c. split; [|done]. apply N.eqb_neq in Hne. by rewrite Hne.
Qed.

(** The rows after [save] of a row that keeps its id and parties. *)
Lemma save_same_party table d0 d :
  NoDup (map Conversation._id table) → d0 ∈ table → same_party d0 d →
  (∀ c, c ∈ table → ∃ c', c' ∈ Conversation.save d table ∧ same_party c c')
  ∧ (∀ c', c' ∈ Conversation.save d table →
           ∃ c, c ∈ table ∧ same_party c c').
Proof.
  intros Hnd Hd0 (Hi & Hu & Hc). split.
  - intros c Hin.
    destruct (decide (Conversation._id c = Conversation._id d)) as [He|Hne].
    + exists d. split.
      * apply elem_of_save. left. split; [done|]. by exists c.
      * assert (c = d0) as -> by (apply (unique_by_id table); congruence).
        done.
    + exists c. split; [|done]. apply elem_of_save. by right.
  - intros c' [(-> & _)|(Hin & _)]%elem_of_save.
    + by exists d0.
    + by exists c'.
Qed.

Lemma referential_effect db db' :
  effect db db' → referential db → referential db'.
Proof.
  intros He (Hnd & Hlt & Hm). unfold referential.
  assert (∀ convs' msgs' next',
    map Conversation._id convs' = map Conversation._id (conversations db) →
    (∀ c, c ∈ conversations db → ∃ c', c' ∈ convs' ∧ same_party c c') →
    (∀ c', c' ∈ convs' → ∃ c, c ∈ conversations db ∧ same_party c c') →
    (nextId db <= next')%N →
    Forall (λ m, ∃ c, c ∈ conversations db ∧ party_ok c m) msgs' →
    NoDup (map Conversation._id convs')
    ∧ Forall (λ c, (Conversation._id c < next')%N) convs'
    ∧ Forall (λ m, ∃ c, c ∈ convs' ∧ party_ok c m) msgs') as Hsame.
  { intros convs' msgs' next' Hids Hfw Hbw Hnext Hmsgs.
    split; [by rewrite Hids|]. split.
    - apply Forall_forall. intros c' (c & Hc & Hi & _)%Hbw.
      pose proof (proj1 (Forall_forall _ _) Hlt c Hc). simpl in *. lia.
    - eapply Forall_impl; [exact Hmsgs|]. intros m (c & Hc & Hok). simpl.
      destruct (Hfw c Hc) as (c' & Hc' & Hs). exists c'. split; [done|].
      by apply (party_ok_same c). }
  destruct He as [Hc Hmsg Hn|before d after now Hc Hc' Hmsg Hn
                 |u co now Hc' Hmsg Hn
                 |a convo m Hf Hp Hid Hty Hsu Hsc Hr Hc' Hmsg Hn
                 |a cid convo now Hf Hp Hc' Hmsg Hn|gone Hc' Hmsg Hn].
  - rewrite Hc, Hmsg. split; [done|]. split; [|done].
    eapply Forall_impl; [exact Hlt|]. intros c ?. simpl in *. lia.
  - rewrite Hc', Hmsg, Hn. apply Hsame; [| | |lia|done].
    + by rewrite Hc, !map_app.
    + rewrite Hc. intros c [?|[->|?]%elem_of_cons]%elem_of_app.
      * exists c. split; [|done]. apply elem_of_app. by left.
      * eexists. split; [apply elem_of_app; right; by left|done].
      * exists c. split; [|done]. apply elem_of_app. right. by right.
    + rewrite Hc. intros c [?|[->|?]%elem_of_cons]%elem_of_app.
      * exists c. split; [|done]. apply elem_of_app. by left.
      * exists d. split; [apply elem_of_app; right; by left|done].
      * exists c. split; [|done]. apply elem_of_app. right. by right.
  - rewrite Hc', Hmsg, Hn. split; [|split].
    + rewrite map_app. simpl. apply NoDup_app. split; [done|].
      split; [|apply NoDup_singleton].
      intros i (c & Hi & Hc)%list_elem_of_fmap Hi'%list_elem_of_singleton.
      pose proof (proj1 (Forall_forall _ _) Hlt c Hc). simpl in *. lia.
    + apply Forall_app. split.
      * eapply Forall_impl; [exact Hlt|]. intros c ?. simpl in *. lia.
      * constructor; [simpl; lia|constructor].
    + eapply Forall_impl; [exact Hm|]. intros m (c & Hc & Hok).
      exists c. split; [|done]. apply elem_of_app. by left.
  - apply findById_Some in Hf as [Hcid Hin].
    destruct (save_same_party (conversations db) convo (touched a m convo)
                Hnd Hin) as [Hfw Hbw]; [done|].
    rewrite Hc', Hmsg.
    destruct (Hsame (Conversation.save (touched a m convo) (conversations db))
                (messages db) (nextId db')) as (H1 & H2 & H3);
      [apply save_ids|done|done|lia|done|].
    split; [done|]. split; [done|]. apply Forall_app. split; [done|].
    constructor; [|constructor]. exists (touched a m convo). split.
    + apply elem_of_save. left. split; [done|]. by exists convo.
    + split; [done|]. rewrite Hty, Hsu, Hsc.
      unfold participant, Actor.is_user, Actor.is_company in *. simpl.
      destruct (Actor.type a); destruct Hp as [[? ?]|[? ?]]; try done;
        simpl; split; congruence.
  - apply findById_Some in Hf as [Hcid Hin].
    set (convo' := if Actor.is_user a
                   then Conversation.set_userUnreadCount 0 convo
                   else Conversation.set_companyUnreadCount 0 convo) in *.
    assert (same_party convo convo') as Hs
      by (subst convo'; by destruct (Actor.is_user a)).
    destruct (save_same_party (conversations db) convo convo' Hnd Hin Hs)
      as [Hfw Hbw].
    rewrite Hc', Hmsg, Hn. apply Hsame; [apply save_ids|done|done|lia|].
    unfold Message.updateMany. apply Forall_fmap.
    eapply Forall_impl; [exact Hm|]. intros m (c & Hc & Hok). simpl.
    exists c. split; [done|].
    by destruct (unread_from_other a cid m).
  - rewrite Hc', Hmsg, Hn. split; [|split].
    + clear -Hnd. induction (conversations db) as [|c l IH]; simpl; [done|].
      apply NoDup_cons in Hnd as [Hc Hnd].
      destruct (negb (gone (Conversation._id c))); simpl; [|by apply IH].
      apply NoDup_cons. split; [|by apply IH].
      intros (x & Hid & [Hx%list_elem_of_In _]%list_elem_of_In%filter_In)
        %list_elem_of_fmap.
      apply Hc. rewrite Hid. by apply list_elem_of_fmap_2.
    + apply Forall_forall.
      intros c [Hc%list_elem_of_In _]%list_elem_of_In%filter_In.
      by apply (proj1 (Forall_forall _ _) Hlt).
    + apply Forall_forall.
      intros m [Hin%list_elem_of_In Hg]%list_elem_of_In%filter_In.
      destruct (proj1 (Forall_forall _ _) Hm m Hin) as (c & Hc & Hok).
      exists c. split; [|done]. apply list_elem_of_In, filter_In.
      split; [by apply list_elem_of_In|]. destruct Hok as [<- _]. done.
Qed.

Lemma filter_map_same {A} (p : A → bool) (f : A → A) (l : list A) :
  (∀ x, x ∈ l → p (f x) = p x) →
  List.filter p (map f l) = map f (List.filter p l).
Proof.
  induction l as [|x l IH]; simpl; [done|]. intros H.
  rewrite H by by left. rewrite IH by (intros y Hy; apply H; by right).
  by destruct (p x).
Qed.

Lemma filter_filter_weaker {A} (p q : A → bool) (l : list A) :
  (∀ x, x ∈ l → p x = true → q x = true) →
  List.filter p (List.filter q l) = List.filter p l.
Proof.
  induction l as [|x l IH]; simpl; [done|]. intros H.
  rewrite <- IH by (intros y Hy; apply H; by right).
  destruct (q x) eqn:Eq; simpl; [done|].
  destruct (p x) eqn:Ep; [|done].
  rewrite H in Eq; [done|by left|done].
Qed.

(** No message belongs to a conversation id the counter has not yet
    given out. *)
Lemma referential_fresh db m :
  referential db → m ∈ messages db → (Message.conversation m < nextId db)%N.
Proof.
  intros (_ & Hlt & Hm) Hin.
  destruct (proj1 (Forall_forall _ _) Hm m Hin) as (c & Hc & [-> _]).
  by apply (proj1 (Forall_forall _ _) Hlt).
Qed.



Lemma previews_effect db db' :
  effect db db' → referential db → previews_match db → previews_match db'.
Proof.
  intros He Href Hpm. pose proof Href as (Hnd & Hlt & Hm).
  unfold previews_match, preview_of, history in *.
  destruct He as [Hc Hmsg Hn|before d after now Hc Hc' Hmsg Hn
                 |u co now Hc' Hmsg Hn
                 |a convo m Hf Hp Hid Hty Hsu Hsc Hr Hc' Hmsg Hn
                 |a cid convo now Hf Hp Hc' Hmsg Hn|gone Hc' Hmsg Hn].
  - rewrite Hc, Hmsg. done.
  - rewrite Hc', Hmsg. intros c [?|[->|?]%elem_of_cons]%elem_of_app.
    + apply Hpm. rewrite Hc. apply elem_of_app. by left.
    + apply (Hpm d). rewrite Hc. apply elem_of_app. right. by left.
    + apply Hpm. rewrite Hc. apply elem_of_app. right. by right.
  - rewrite Hc', Hmsg. intros c [?|Hs%list_elem_of_singleton]%elem_of_app;
      [by apply Hpm|]. subst c. simpl.
    rewrite filter_false; [done|]. intros m Hin.
    pose proof (referential_fresh _ _ Href Hin).
    apply N.eqb_neq. lia.
  - apply findById_Some in Hf as [Hcid Hin].
    rewrite Hc', Hmsg. intros c Hc. rewrite List.filter_app. simpl.
    apply elem_of_save in Hc as [(-> & _)|(Hc & Hne)].
    + simpl. rewrite Hcid, N.eqb_refl. by rewrite last_snoc.
    + assert ((Message.conversation m =? Conversation._id c)%N = false) as ->.
      { apply N.eqb_neq. simpl in Hne. congruence. }
      rewrite app_nil_r. by apply Hpm.
  - apply findById_Some in Hf as [Hcid Hin].
    rewrite Hc', Hmsg. unfold Message.updateMany.
    assert (∀ i,
      match last (List.filter (λ m, (Message.conversation m =? i)%N)
                    (map (λ m, if unread_from_other a cid m
                               then Message.set_readAt now m else m)
                         (messages db))) with
      | Some m => Js.slice0 200 (Message.text m)
      | None => ""
      end
      = match last (List.filter (λ m, (Message.conversation m =? i)%N)
                      (messages db)) with
        | Some m => Js.slice0 200 (Message.text m)
        | None => ""
        end) as Hsame.
    { intros i. rewrite filter_map_same.
      - rewrite fmap_last.
        destruct (last _) as [m|]; [|done]. simpl.
        by destruct (unread_from_other a cid m).
      - intros m _. by destruct (unread_from_other a cid m). }
    intros c [(-> & _)|(Hc & Hne)]%elem_of_save.
    + rewrite Hsame. specialize (Hpm convo Hin).
      by destruct (Actor.is_user a).
    + rewrite Hsame. by apply Hpm.
  - rewrite Hc', Hmsg.
    intros c [Hc%list_elem_of_In Hg%negb_true_iff]%list_elem_of_In%filter_In.
    rewrite filter_filter_weaker; [by apply Hpm|].
    intros m _ Hi%N.eqb_eq. by rewrite Hi, Hg.
Qed.

Lemma serve_snoc db rs r : serve db (rs ++ [r]) = handle (serve db rs) r.
Proof. unfold serve. by rewrite fold_left_app. Qed.

Lemma referential_serve db rs : referential db → referential (serve db rs).
Proof.
  intros H. induction rs as [|r rs IH] using rev_ind; [done|].
  rewrite serve_snoc. eapply referential_effect; [|done].
  apply handle_effect. by destruct IH.
Qed.

End kept.

Section kept_claims.

Import ChatSpec Extra Server.

Implicit Types (db : store) (rs : list request).

(** A day of requests against the empty store, used below. *)
Local Notation "'sample_requests'" :=
  [StartConversation Socket.init (Actor.Make Actor.user 1)
     (Chat.StartBody Chat.Missing (Chat.WellFormed 2)) 10;
   SendMessage Socket.init (Actor.Make Actor.user 1) 0
     (Some "Are you hiring?") None 11 12 13;
   SendMessage Socket.init (Actor.Make Actor.company 2) 0
     (Some "Yes") None 21 22 23;
   MarkRead (Actor.Make Actor.company 2) 0 30;
   StartConversation Socket.init (Actor.Make Actor.company 2)
     (Chat.StartBody (Chat.WellFormed 7) Chat.Missing) 40;
   DeleteUser 7].

(** A store with one conversation and one unread message in it. *)
Local Notation "'asked'" :=
  (Store [Conversation.Doc 0 1 2 12 "Are you hiring?" 0 1 false false]
         [Message.Doc 1 0 Actor.user (Some 1%N) None "Are you hiring?" []
            (Some 11%Z) None 12] [] ∅ ∅ 2).

(** X8. Whatever requests are served (conversations started, messages
    sent and read, notifications read or cleared, conversations, users or
    companies deleted), conversation ids stay unique and every stored
    message belongs to a conversation of the store and names as its
    sender the user or the company of that conversation. *)
Theorem messages_belong_to_conversations db rs :
  referential db → referential (serve db rs).
Proof. apply referential_serve. Qed.

Lemma messages_belong_to_conversations_witness :
  referential (serve empty_store sample_requests).
Proof.
  apply (messages_belong_to_conversations empty_store sample_requests).
  split; [constructor|]. split; constructor.
Defined.



(** X10. Whatever requests are served, the [lastMessagePreview] of every
    conversation is the first 200 characters of the text of its newest
    stored message, and the empty string while it has no message. *)
Theorem previews_match_newest_message db rs :
  referential db → previews_match db → previews_match (serve db rs).
Proof.
  intros Href H. induction rs as [|r rs IH] using rev_ind; [done|].
  rewrite serve_snoc.
  pose proof (referential_serve db rs Href) as Hr.
  eapply previews_effect; [|done..]. apply handle_effect. by destruct Hr.
Qed.

Lemma previews_match_newest_message_witness :
  previews_match (serve empty_store sample_requests).
Proof.
  apply (previews_match_newest_message empty_store sample_requests).
  - split; [constructor|]. split; constructor.
  - intros c Hc. simpl in Hc. by apply elem_of_nil in Hc.
Defined.

(** X11. No request rewrites a stored message: a message of the store a
    request leaves is either new, unread and under the id the counter
    held, or a message that was there, unchanged or with [readAt] stamped
    where there was none.  A [readAt] once set is never cleared or
    changed. *)
Theorem stored_messages_only_get_read db (r : request) m' :
  referential db →
  m' ∈ messages (handle db r) →
  (Message._id m' = nextId db ∧ Message.readAt m' = None)
  ∨ ∃ m, m ∈ messages db
         ∧ (m' = m
            ∨ (Message.readAt m = None
               ∧ ∃ t, m' = Message.set_readAt t m)).
Proof.
  intros (Hnd & _ & _) Hin.
  destruct (handle_effect db r Hnd)
    as [Hc Hmsg Hn|before d after now Hc Hc' Hmsg Hn
       |u co now Hc' Hmsg Hn
       |a convo m Hf Hp Hid Hty Hsu Hsc Hr Hc' Hmsg Hn
       |a cid convo now Hf Hp Hc' Hmsg Hn|gone Hc' Hmsg Hn];
    rewrite Hmsg in Hin.
  - right. exists m'. eauto.
  - right. exists m'. eauto.
  - right. exists m'. eauto.
  - apply elem_of_app in Hin as [Hin|Hin%list_elem_of_singleton].
    + right. exists m'. eauto.
    + subst m'. by left.
  - unfold Message.updateMany in Hin.
    apply list_elem_of_fmap in Hin as (m & -> & Hin). right. exists m.
    split; [done|]. destruct (unread_from_other a cid m) eqn:E; [|by left].
    right. split; [|by eexists].
    unfold unread_from_other in E.
    apply andb_true_iff in E as [[_ E]%andb_true_iff _].
    by destruct (Message.readAt m).
  - apply list_elem_of_In, filter_In in Hin as [Hin%list_elem_of_In _].
    right. exists m'. eauto.
Qed.

Lemma stored_messages_only_get_read_witness :
  (Message._id
     (Message.Doc 1 0 Actor.user (Some 1%N) None "Are you hiring?" []
        (Some 11%Z) (Some 30%Z) 12) = nextId asked
   ∧ Message.readAt
       (Message.Doc 1 0 Actor.user (Some 1%N) None "Are you hiring?" []
          (Some 11%Z) (Some 30%Z) 12) = None)
  ∨ ∃ m, m ∈ messages asked
         ∧ (Message.Doc 1 0 Actor.user (Some 1%N) None "Are you hiring?" []
              (Some 11%Z) (Some 30%Z) 12 = m
            ∨ (Message.readAt m = None
               ∧ ∃ t, Message.Doc 1 0 Actor.user (Some 1%N) None
                        "Are you hiring?" [] (Some 11%Z) (Some 30%Z) 12
                      = Message.set_readAt t m)).
Proof.
  apply (stored_messages_only_get_read asked
           (MarkRead (Actor.Make Actor.company 2) 0 30)).
  - split; [|split]; simpl.
    + apply NoDup_singleton.
    + constructor; [simpl; lia|constructor].
    + constructor; [|constructor].
      exists (Conversation.Doc 0 1 2 12 "Are you hiring?" 0 1 false false).
      split; [by left|]. split; [reflexivity|]. split; reflexivity.
  - vm_compute. left.
Defined.

End kept_claims.

(** ** Sorting by a comparison *)

Section sorting.

Context {A : Type} (before : A → A → bool).

Hypothesis before_asym : ∀ x y, before x y = true → before y x = false.
Hypothesis before_trans :
  ∀ x y z, before y x = false → before z y = false → before z x = false.

Local Notation "'le'" := (λ x y : A, before y x = false).

Lemma insert_by_perm (x : A) l : Js.insert_by before x l ≡ₚ x :: l.
Proof.
  induction l as [|h t IH]; simpl; [done|].
  destruct (before h x); [|done]. rewrite IH. apply Permutation_swap.
Qed.

Lemma sort_by_perm (l : list A) : Js.sort_by before l ≡ₚ l.
Proof.
  unfold Js.sort_by. induction l as [|h t IH]; simpl; [done|].
  by rewrite insert_by_perm, IH.
Qed.

Lemma insert_by_sorted (x : A) l :
  StronglySorted le l → StronglySorted le (Js.insert_by before x l).
Proof.
  induction 1 as [|h t Hs IH Hh]; simpl.
  - constructor; [constructor|constructor].
  - destruct (before h x) eqn:E.
    + constructor; [done|]. rewrite insert_by_perm.
      constructor; [by apply before_asym|done].
    + constructor; [by constructor|]. constructor; [done|].
      eapply Forall_impl; [exact Hh|]. intros y Hy. simpl in *.
      by eapply before_trans.
Qed.

Lemma sort_by_strongly_sorted (l : list A) :
  StronglySorted le (Js.sort_by before l).
Proof.
  unfold Js.sort_by. induction l as [|h t IH]; simpl; [constructor|].
  by apply insert_by_sorted.
Qed.

(** In a sorted list, an element that must come strictly before another
    one stands before it. *)
Lemma sorted_before (l : list A) x y :
  StronglySorted le l → x ∈ l → y ∈ l → before y x = true →
  ∃ l1 l2 l3, l = l1 ++ y :: l2 ++ x :: l3.
Proof.
  intros Hs Hx Hy Hb.
  apply list_elem_of_split in Hy as (l1 & l' & ->).
  apply elem_of_app in Hx as [Hx|Hx].
  - exfalso. apply list_elem_of_split in Hx as (k1 & k2 & ->).
    rewrite <- app_assoc in Hs. simpl in Hs.
    assert (∀ k, StronglySorted le (k ++ x :: k2 ++ y :: l') → le x y) as H.
    { clear. induction k as [|h k IH]; simpl; intros H.
      - apply StronglySorted_inv in H as [_ H].
        apply (proj1 (Forall_forall _ _) H). set_solver.
      - apply StronglySorted_inv in H as [H _]. by apply IH. }
    apply H in Hs. simpl in Hs. congruence.
  - apply elem_of_cons in Hx as [->|Hx].
    + apply before_asym in Hb as Hb'. congruence.
    + apply list_elem_of_split in Hx as (l2 & l3 & ->). by exists l1, l2, l3.
Qed.

End sorting.

(** ** The notification handlers *)

Section notifications.

Import ChatSpec Extra Server.

Implicit Types (a : Actor.t) (db : store) (n : Notification.doc)
  (table : list Notification.doc) (r : Notifications.requester).

Lemma rank_ltb (p q : Notification.level) :
  String.ltb (Notifications.priority_name p) (Notifications.priority_name q)
  = (priority_rank p <? priority_rank q)%Z.
Proof. by destruct p, q. Qed.

Lemma rank_eqb (p q : Notification.level) :
  String.eqb (Notifications.priority_name p) (Notifications.priority_name q)
  = (priority_rank p =? priority_rank q)%Z.
Proof. by destruct p, q. Qed.

Lemma listed_before_rank n1 n2 :
  Notifications.listed_before n1 n2 = true
  ↔ (priority_rank (Notification.priority n2)
     < priority_rank (Notification.priority n1))%Z
    ∨ (priority_rank (Notification.priority n2)
       = priority_rank (Notification.priority n1)
       ∧ (Notification.createdAt n2 < Notification.createdAt n1)%Z).
Proof.
  unfold Notifications.listed_before. rewrite rank_ltb, rank_eqb.
  rewrite orb_true_iff, andb_true_iff, !Z.ltb_lt, Z.eqb_eq. done.
Qed.

Lemma listed_before_asym n1 n2 :
  Notifications.listed_before n1 n2 = true →
  Notifications.listed_before n2 n1 = false.
Proof.
  intros H%listed_before_rank. apply not_true_is_false.
  intros H'%listed_before_rank. lia.
Qed.

Lemma listed_before_trans n1 n2 n3 :
  Notifications.listed_before n2 n1 = false →
  Notifications.listed_before n3 n2 = false →
  Notifications.listed_before n3 n1 = false.
Proof.
  intros H1%not_true_iff_false H2%not_true_iff_false.
  apply not_true_is_false. rewrite listed_before_rank in *. lia.
Qed.

Lemma filter_sublist {X} (p : X → bool) (l : list X) :
  List.filter p l `sublist_of` l.
Proof.
  induction l as [|x l IH]; simpl; [done|].
  destruct (p x); by constructor.
Qed.

Lemma deleteOne_sublist (q : Notification.doc → bool) table :
  Notifications.deleteOne q table `sublist_of` table.
Proof.
  induction table as [|x l IH]; simpl; [done|].
  destruct (q x); by constructor.
Qed.

Lemma Forall2_map_self {X} (R : X → X → Prop) (f : X → X) (l : list X) :
  (∀ x, x ∈ l → R (f x) x) → Forall2 R (map f l) l.
Proof.
  induction l as [|x l IH]; simpl; intros H; constructor.
  - apply H. by left.
  - apply IH. intros y Hy. apply H. by right.
Qed.

Lemma Forall2_refl_on {X} (R : X → X → Prop) (l : list X) :
  (∀ x, R x x) → Forall2 R l l.
Proof. intros H. induction l; by constructor. Qed.

(** What a request does to the notifications: it marks some read and
    drops some, or it appends the fallback of a message. *)
Lemma handle_notifications db (q : request) :
  (nextId db <= nextId (handle db q))%N
  ∧ ((∃ l, l `sublist_of` notifications db
           ∧ Forall2 (marked db) (notifications (handle db q)) l)
     ∨ (∃ a convo m t,
          notifications (handle db q)
          = notifications db
            ++ [fallback a convo m (nextId db + 1)%N t db]
          ∧ (nextId db + 1 < nextId (handle db q))%N)).
Proof.
  assert (∀ db', notifications db' = notifications db →
            ∃ l, l `sublist_of` notifications db
                 ∧ Forall2 (marked db) (notifications db') l) as Hsame.
  { intros db' ->. exists (notifications db). split; [done|].
    apply Forall2_refl_on. by left. }
  assert (∀ p, ∃ l, l `sublist_of` notifications db
                    ∧ Forall2 (marked db) (List.filter p (notifications db)) l)
    as Hfilter.
  { intros p. exists (List.filter p (notifications db)).
    split; [apply filter_sublist|]. apply Forall2_refl_on. by left. }
  destruct q as [reg a bd now|reg a conversationId text file now savedAt
                 notifiedAt|a conversationId now|r id|r|r id
                |conversationId|userId|companyId]; simpl.
  - unfold Chat.startConversation.
    assert (∀ u co : N,
      let db' :=
        (let '(convo, table, inserted) :=
           Conversation.findOneAndUpdate u co now (nextId db)
                                         (conversations db) in
         if inserted then bump (with_conversations table db)
         else with_conversations table db) in
      (nextId db <= nextId db')%N ∧ notifications db' = notifications db)
      as H.
    { intros u co.
      destruct (Conversation.findOneAndUpdate _ _ _ _ _) as [[convo table] ins].
      destruct ins; simpl; split; try done; lia. }
    destruct (Actor.type a).
    + destruct (Chat.companyId bd) as [| |co]; simpl;
        try (split; [lia|left; by apply Hsame]).
      specialize (H (Actor.id a) co). simpl in H.
      destruct (Conversation.findOneAndUpdate _ _ _ _ _) as [[convo table] ins].
      simpl. destruct H as [H1 H2]. split; [done|]. left. by apply Hsame.
    + destruct (Chat.userId bd) as [| |u]; simpl;
        try (split; [lia|left; by apply Hsame]).
      specialize (H u (Actor.id a)). simpl in H.
      destruct (Conversation.findOneAndUpdate _ _ _ _ _) as [[convo table] ins].
      simpl. destruct H as [H1 H2]. split; [done|]. left. by apply Hsame.
  - destruct (Conversation.findById conversationId (conversations db))
      as [convo|] eqn:Hfind;
      [|rewrite sendMessage_unknown by done; simpl;
        split; [lia|left; by apply Hsame]].
    destruct (participant_dec a convo) as [Hp|Hp];
      [|rewrite (sendMessage_forbidden _ _ _ _ _ _ _ _ _ _ Hfind Hp); simpl;
        split; [lia|left; by apply Hsame]].
    rewrite (sendMessage_participant _ _ _ _ _ _ _ _ _ _ Hfind Hp).
    destruct (stored_text text file) as [stored|];
      [|simpl; split; [lia|left; by apply Hsame]].
    cbv zeta. simpl. destruct (online reg (recipient a convo)).
    + split; [lia|]. left. rewrite app_nil_r.
      exists (notifications db). split; [done|].
      apply Forall2_refl_on. by left.
    + split; [lia|]. right. eexists a, convo, _, notifiedAt.
      split; [reflexivity|lia].
  - destruct (Conversation.findById conversationId (conversations db))
      as [convo|] eqn:Hfind.
    + destruct (participant_dec a convo) as [Hp|Hp].
      * rewrite (markRead_participant _ _ _ _ _ Hfind Hp). simpl.
        split; [lia|left; by apply Hsame].
      * unfold Chat.markRead. rewrite Hfind.
        rewrite participant_markRead in Hp. destruct (_ || _); [done|].
        simpl. split; [lia|left; by apply Hsame].
    + unfold Chat.markRead. rewrite Hfind. simpl.
      split; [lia|left; by apply Hsame].
  - unfold Notifications.markAsRead.
    destruct (Notifications.actor r) as [a|];
      [|simpl; split; [lia|left; by apply Hsame]].
    destruct (find _ _) as [n0|] eqn:Hf;
      [|simpl; split; [lia|left; by apply Hsame]].
    simpl. split; [lia|]. left. exists (notifications db). split; [done|].
    apply find_some in Hf as [Hin%list_elem_of_In _].
    unfold Notifications.save. apply Forall2_map_self. intros x Hx. simpl.
    destruct (Notification._id x =? Notification._id n0)%N eqn:E;
      [|by left].
    right. exists n0. apply N.eqb_eq in E. done.
  - unfold Notifications.markAllAsRead.
    destruct (Notifications.actor r) as [a|];
      [|simpl; split; [lia|left; by apply Hsame]].
    simpl. split; [lia|]. left. exists (notifications db). split; [done|].
    apply Forall2_map_self. intros x Hx.
    destruct (Notifications.unread a x); [|by left]. right. by exists x.
  - unfold Notifications.clearAllNotifications.
    destruct (Notifications.actor r) as [a|];
      [|simpl; split; [lia|left; by apply Hsame]].
    destruct id as [id|]; simpl.
    + split; [lia|]. left. eexists. split; [apply deleteOne_sublist|].
      apply Forall2_refl_on. by left.
    + split; [lia|]. left. apply Hfilter.
  - split; [lia|]. left. by apply Hsame.
  - split; [lia|]. left. apply Hfilter.
  - split; [lia|]. left. apply Hfilter.
Qed.

Lemma chat_notification_marked db n' n :
  Forall chat_notification (notifications db) →
  chat_notification n → marked db n' n → chat_notification n'.
Proof.
  intros Hall Hn [->|(n0 & Hin & _ & ->)]; [done|].
  by apply (proj1 (Forall_forall _ _) Hall) in Hin.
Qed.

Lemma chat_notification_fallback a convo m (id : N) (t : Z) db :
  chat_notification (fallback a convo m id t db).
Proof.
  unfold chat_notification, fallback. simpl.
  split; [by destruct (Actor.is_user a)|]. split; [done|]. split; [done|].
  split.
  - unfold nonempty.
    by destruct (sender_name a db).
  - unfold notification_preview. destruct (nonempty (Message.text m)) eqn:E;
      [|done]. by apply nonempty_slice0_app.
Qed.

End notifications.

Section notification_claims.

Import ChatSpec Extra Server.

Implicit Types (a : Actor.t) (db : store) (n : Notification.doc)
  (table : list Notification.doc) (r : Notifications.requester).

Local Notation "'sample_day'" :=
  [StartConversation Socket.init (Actor.Make Actor.user 1)
     (Chat.StartBody Chat.Missing (Chat.WellFormed 2)) 10;
   SendMessage Socket.init (Actor.Make Actor.user 1) 0
     (Some "Are you hiring?") None 11 12 13;
   SendMessage Socket.init (Actor.Make Actor.company 2) 0
     None (Some (Upload.Make "image/png" "a.png" "a.png" 10)) 21 22 23;
   MarkAsRead (Notifications.Requester None (Some 2%N)) 2;
   ClearAllNotifications (Notifications.Requester (Some 1%N) None) None].

Lemma Forall_marked (P : Notification.doc → Prop) db l' l :
  (∀ n' n, P n → marked db n' n → P n') →
  Forall P l → Forall2 (marked db) l' l → Forall P l'.
Proof.
  intros HP Hl H. induction H as [|n' n l' l Hm H IH]; [constructor|].
  apply Forall_cons in Hl as [Hn Hl]. constructor; eauto.
Qed.

Lemma Forall_sublist {X} (P : X → Prop) (l k : list X) :
  l `sublist_of` k → Forall P k → Forall P l.
Proof.
  intros Hs Hk. apply Forall_forall. intros x Hx.
  apply (proj1 (Forall_forall _ _) Hk). by eapply elem_of_sublist.
Qed.


(** X12. Whatever requests are served, every stored notification has the
    shape the chat gives its own: exactly one of the two recipients, the
    type [message_received], the priority [medium], and a title and a
    message that are not empty. *)
Theorem notifications_keep_chat_shape db (rs : list request) :
  Forall chat_notification (notifications db) →
  Forall chat_notification (notifications (serve db rs)).
Proof.
  intros H. induction rs as [|q rs IH] using rev_ind; [done|].
  rewrite serve_snoc.
  destruct (handle_notifications (serve db rs) q)
    as [_ [(l & Hsub & Hm)|(a & convo & m & t & -> & _)]].
  - eapply Forall_marked; [|by eapply Forall_sublist|done].
    intros n' n Hn Hmk. by eapply chat_notification_marked.
  - apply Forall_app. split; [done|]. constructor; [|constructor].
    apply chat_notification_fallback.
Qed.

Lemma notifications_keep_chat_shape_witness :
  Forall chat_notification (notifications (serve empty_store sample_day)).
Proof.
  apply (notifications_keep_chat_shape empty_store sample_day). constructor.
Defined.



End notification_claims.

Section notification_handlers.

Import ChatSpec Extra Server.

Implicit Types (a : Actor.t) (db : store) (n : Notification.doc)
  (table : list Notification.doc) (r : Notifications.requester).

(** The fallback of a message of user Ann to company 2, unread. *)
Local Notation "'from_ann'" :=
  (Notification.Doc 5 None (Some 2%N) Notification.message_received
     "New message from Ann" "Hello" false
     (Notification.Payload (Some 0%N) (Some "/company/chat"))
     Notification.medium None 3).

Local Notation "'inbox'" := (Store [] [] [from_ann] ∅ ∅ 6).


(** With unique ids, the first row of an id is the only one. *)
Lemma find_by_id (p : Notification.doc → bool) table n :
  NoDup (map Notification._id table) → n ∈ table → p n = true →
  find (λ x, (Notification._id x =? Notification._id n)%N && p x) table
  = Some n.
Proof.
  induction table as [|x l IH]; simpl.
  { by intros _ ?%elem_of_nil. }
  intros [Hx Hnd]%NoDup_cons [->|Hin]%elem_of_cons Hp.
  - by rewrite N.eqb_refl, Hp.
  - destruct (Notification._id x =? Notification._id n)%N eqn:E.
    + exfalso. apply Hx. apply N.eqb_eq in E. rewrite E.
      by apply list_elem_of_fmap_2.
    + simpl. by apply IH.
Qed.

Lemma save_marks (id : N) table n :
  Notification._id n = id →
  NoDup (map Notification._id table) → n ∈ table →
  Notifications.save (Notifications.set_isRead true n) table
  = map (λ x, if (Notification._id x =? id)%N
              then Notifications.set_isRead true x else x) table.
Proof.
  intros <- Hnd Hin. unfold Notifications.save. simpl.
  apply map_ext_in. intros x Hx%list_elem_of_In.
  destruct (Notification._id x =? Notification._id n)%N eqn:E; [|done].
  apply N.eqb_eq in E. f_equal. clear -Hnd Hin Hx E.
  induction table as [|y l IH]; [by apply elem_of_nil in Hx|].
  simpl in Hnd. apply NoDup_cons in Hnd as [Hy Hnd].
  apply elem_of_cons in Hx as [->|Hx], Hin as [->|Hin]; try done.
  - exfalso. apply Hy. rewrite E. by apply list_elem_of_fmap_2.
  - exfalso. apply Hy. rewrite <- E. by apply list_elem_of_fmap_2.
  - by apply IH.
Qed.

Lemma owned_set_isRead a b n :
  Notifications.owned a (Notifications.set_isRead b n)
  = Notifications.owned a n.
Proof. unfold Notifications.owned. by destruct (Actor.type a). Qed.

(** Marking one row read lowers the number of unread rows by one when the
    row was unread, and leaves it otherwise. *)
Lemma count_after_mark a table n :
  NoDup (map Notification._id table) → n ∈ table →
  Notifications.owned a n = true →
  (length (List.filter (Notifications.unread a)
             (map (λ x, if (Notification._id x =? Notification._id n)%N
                        then Notifications.set_isRead true x else x) table))
   + (if Notification.isRead n then 0 else 1)
   = length (List.filter (Notifications.unread a) table))%nat.
Proof.
  induction table as [|x l IH]; simpl.
  { by intros _ ?%elem_of_nil. }
  intros [Hx Hnd]%NoDup_cons Hin Ho.
  apply elem_of_cons in Hin as [->|Hin].
  - rewrite N.eqb_refl.
    assert (map (λ x0, if (Notification._id x0 =? Notification._id x)%N
                       then Notifications.set_isRead true x0 else x0) l = l)
      as ->.
    { rewrite <- (map_id l) at 2. apply map_ext_in.
      intros y Hy%list_elem_of_In.
      destruct (Notification._id y =? Notification._id x)%N eqn:E; [|done].
      exfalso. apply Hx. apply N.eqb_eq in E. rewrite <- E.
      by apply list_elem_of_fmap_2. }
    assert (Notifications.unread a (Notifications.set_isRead true x) = false)
      as -> by (unfold Notifications.unread; simpl; apply andb_false_r).
    assert (Notifications.unread a x = negb (Notification.isRead x)) as ->
      by (unfold Notifications.unread; by rewrite Ho).
    destruct (Notification.isRead x); simpl; lia.
  - destruct (Notification._id x =? Notification._id n)%N eqn:E.
    { exfalso. apply Hx. apply N.eqb_eq in E. rewrite E.
      by apply list_elem_of_fmap_2. }
    specialize (IH Hnd Hin Ho).
    destruct (Notifications.unread a x); simpl; lia.
Qed.



(** X15. [markAsRead] on a notification of the actor answers 200 with the
    unread count [getUnreadCount] gives afterwards, which is the count
    before less one when the notification was unread and the same count
    when it was read already; the notification is marked read and no
    other row, conversation or message changes. *)
Theorem markAsRead_lowers_unread_count r a db n :
  NoDup (map Notification._id (notifications db)) →
  Notifications.actor r = Some a →
  n ∈ notifications db →
  Notifications.owned a n = true →
  ∃ k db',
    Notifications.markAsRead r (Notification._id n) db = (Json 200 k, db')
    ∧ Notifications.getUnreadCount r db' = Json 200 k
    ∧ Notifications.getUnreadCount r db
      = Json 200 (k + if Notification.isRead n then 0 else 1)%N
    ∧ notifications db'
      = map (λ x, if (Notification._id x =? Notification._id n)%N
                  then Notifications.set_isRead true x else x)
            (notifications db)
    ∧ conversations db' = conversations db
    ∧ messages db' = messages db.
Proof.
  intros Hnd Ha Hin Ho. unfold Notifications.markAsRead, Notifications.getUnreadCount.
  rewrite Ha. rewrite (find_by_id (Notifications.owned a) _ n Hnd Hin Ho).
  eexists _, _. split; [reflexivity|]. simpl.
  rewrite (save_marks (Notification._id n)) by done.
  split; [done|]. split; [|done].
  f_equal. unfold Notifications.countDocuments.
  rewrite <- (count_after_mark a _ n Hnd Hin Ho).
  destruct (Notification.isRead n); lia.
Qed.

Lemma markAsRead_lowers_unread_count_witness :
  ∃ k db',
    Notifications.markAsRead (Notifications.Requester None (Some 2%N)) 5 inbox
    = (Json 200 k, db')
    ∧ Notifications.getUnreadCount (Notifications.Requester None (Some 2%N))
        db' = Json 200 k
    ∧ Notifications.getUnreadCount (Notifications.Requester None (Some 2%N))
        inbox = Json 200 (k + 1)%N
    ∧ notifications db'
      = map (λ x, if (Notification._id x =? 5)%N
                  then Notifications.set_isRead true x else x)
            (notifications inbox)
    ∧ conversations db' = conversations inbox
    ∧ messages db' = messages inbox.
Proof.
  apply (markAsRead_lowers_unread_count
           (Notifications.Requester None (Some 2%N))
           (Actor.Make Actor.company 2) inbox from_ann).
  - simpl. apply NoDup_singleton.
  - reflexivity.
  - simpl. by left.
  - reflexivity.
Defined.

(** X16. After [markAllAsRead] the unread count of the actor is 0, the
    count the handler pushes without looking; the notifications of
    everybody else are as they were, and no row is added or removed. *)
Theorem markAllAsRead_leaves_none_unread r a db :
  Notifications.actor r = Some a →
  ∃ db',
    Notifications.markAllAsRead r db = (Json 200 tt, db')
    ∧ Notifications.getUnreadCount r db' = Json 200 0%N
    ∧ List.filter (λ n, negb (Notifications.owned a n)) (notifications db')
      = List.filter (λ n, negb (Notifications.owned a n)) (notifications db)
    ∧ map Notification._id (notifications db')
      = map Notification._id (notifications db).
Proof.
  intros Ha. unfold Notifications.markAllAsRead, Notifications.getUnreadCount.
  rewrite Ha. eexists. split; [reflexivity|]. simpl.
  generalize (notifications db). intros l. split; [|split].
  - f_equal. unfold Notifications.countDocuments.
    replace (List.filter _ _) with (@nil Notification.doc); [done|].
    symmetry. apply filter_false. intros x (y & -> & Hy)%list_elem_of_fmap.
    destruct (Notifications.unread a y) eqn:E; [|done].
    unfold Notifications.unread. rewrite owned_set_isRead. simpl.
    apply andb_false_r.
  - induction l as [|x l IH]; [done|].
    cbn [map List.filter].
    assert (Notifications.owned a
              (if Notifications.unread a x
               then Notifications.set_isRead true x else x)
            = Notifications.owned a x) as ->.
    { destruct (Notifications.unread a x); [apply owned_set_isRead|done]. }
    destruct (Notifications.owned a x) eqn:E; cbn [negb]; [exact IH|].
    unfold Notifications.unread at 1. rewrite E. cbn [andb]. by rewrite IH.
  - rewrite map_map. apply map_ext. intros x.
    by destruct (Notifications.unread a x).
Qed.

Lemma markAllAsRead_leaves_none_unread_witness :
  ∃ db',
    Notifications.markAllAsRead (Notifications.Requester None (Some 2%N)) inbox
    = (Json 200 tt, db')
    ∧ Notifications.getUnreadCount (Notifications.Requester None (Some 2%N))
        db' = Json 200 0%N
    ∧ List.filter
        (λ n, negb (Notifications.owned (Actor.Make Actor.company 2) n))
        (notifications db')
      = List.filter
          (λ n, negb (Notifications.owned (Actor.Make Actor.company 2) n))
          (notifications inbox)
    ∧ map Notification._id (notifications db')
      = map Notification._id (notifications inbox).
Proof.
  apply (markAllAsRead_leaves_none_unread
           (Notifications.Requester None (Some 2%N))
           (Actor.Make Actor.company 2) inbox).
  reflexivity.
Defined.

End notification_handlers.

Section notification_lists.

Import ChatSpec Extra Server.

Implicit Types (a : Actor.t) (db : store) (n : Notification.doc)
  (table : list Notification.doc) (r : Notifications.requester).

Local Notation "'from_ann'" :=
  (Notification.Doc 5 None (Some 2%N) Notification.message_received
     "New message from Ann" "Hello" false
     (Notification.Payload (Some 0%N) (Some "/company/chat"))
     Notification.medium None 3).

Local Notation "'alert'" :=
  (Notification.Doc 6 None (Some 2%N) Notification.message_received
     "Interview moved" "Tomorrow at nine" false
     (Notification.Payload None None)
     Notification.high None 4).

Local Notation "'inbox'" := (Store [] [] [from_ann; alert] ∅ ∅ 7).





(** X18. [getUserNotifications] answers with the notifications of the
    actor, each once, in the order of the sort it asks for: no row is
    followed by one that the comparison of the stored priority names,
    then of [createdAt], puts strictly before it. *)
Theorem getUserNotifications_sorted r a db :
  Notifications.actor r = Some a →
  ∃ l,
    Notifications.getUserNotifications r db = Json 200 l
    ∧ l ≡ₚ List.filter (Notifications.owned a) (notifications db)
    ∧ StronglySorted listed_le l.
Proof.
  intros Ha. unfold Notifications.getUserNotifications. rewrite Ha.
  eexists. split; [reflexivity|]. split.
  - apply sort_by_perm.
  - apply (sort_by_strongly_sorted Notifications.listed_before).
    + apply listed_before_asym.
    + apply listed_before_trans.
Qed.

Lemma getUserNotifications_sorted_witness :
  ∃ l,
    Notifications.getUserNotifications
      (Notifications.Requester None (Some 2%N)) inbox = Json 200 l
    ∧ l ≡ₚ List.filter (Notifications.owned (Actor.Make Actor.company 2))
                       (notifications inbox)
    ∧ StronglySorted listed_le l.
Proof.
  apply (getUserNotifications_sorted
           (Notifications.Requester None (Some 2%N))
           (Actor.Make Actor.company 2) inbox).
  reflexivity.
Defined.

(** X19. The priorities are sorted as the strings they are stored as, so
    the list [getUserNotifications] answers with has every notification
    of priority [high] after every notification of any other priority:
    the order of the priorities is urgent, medium, low, high. *)
Theorem getUserNotifications_lists_high_last r db l (x y : Notification.doc) :
  Notifications.getUserNotifications r db = Json 200 l →
  x ∈ l → y ∈ l →
  Notification.priority x = Notification.high →
  Notification.priority y ≠ Notification.high →
  ∃ l1 l2 l3, l = l1 ++ y :: l2 ++ x :: l3.
Proof.
  unfold Notifications.getUserNotifications.
  destruct (Notifications.actor r) as [a|]; [|done].
  intros [= <-] Hx Hy Hpx Hpy.
  apply (sorted_before Notifications.listed_before listed_before_asym);
    [| done | done |].
  - apply (sort_by_strongly_sorted Notifications.listed_before).
    + apply listed_before_asym.
    + apply listed_before_trans.
  - apply listed_before_rank. left. rewrite Hpx.
    destruct (Notification.priority y); simpl; done || lia.
Qed.

Lemma getUserNotifications_lists_high_last_witness :
  ∃ l1 l2 l3,
    Js.sort_by Notifications.listed_before
      (List.filter (Notifications.owned (Actor.Make Actor.company 2))
                   [alert; from_ann])
    = l1 ++ from_ann :: l2 ++ alert :: l3.
Proof.
  apply (getUserNotifications_lists_high_last
           (Notifications.Requester None (Some 2%N))
           (Store [] [] [alert; from_ann] ∅ ∅ 7) _ alert from_ann).
  - reflexivity.
  - vm_compute. right. left.
  - vm_compute. left.
  - reflexivity.
  - simpl. discriminate.
Defined.

End notification_lists.

Section composition.

Import ChatSpec Extra Server.

Implicit Types (a : Actor.t) (db : store) (c convo : Conversation.doc)
  (m : Message.doc) (r : Notifications.requester).

Lemma unread_fallback a convo m (id : N) (t : Z) db b :
  Notifications.unread b (fallback a convo m id t db)
  = bool_decide (b = recipient a convo).
Proof.
  unfold Notifications.unread, Notifications.owned, fallback, recipient,
    Notifications.eq_id. simpl.
  destruct b as [[] i], (Actor.is_user a); cbn [Actor.type Actor.id];
    rewrite ?andb_true_r; cbn [andb];
    try (symmetry; apply bool_decide_eq_false; congruence).
  - destruct (N.eqb_spec (Conversation.user convo) i) as [<-|Hne]; symmetry;
      [by apply bool_decide_eq_true|apply bool_decide_eq_false; congruence].
  - destruct (N.eqb_spec (Conversation.company convo) i) as [<-|Hne];
      symmetry;
      [by apply bool_decide_eq_true|apply bool_decide_eq_false; congruence].
Qed.

(** X20. A message that is accepted raises the unread count that
    [getUnreadCount] gives the recipient by one when the recipient has no
    live socket, and leaves it when the recipient is online; the count of
    everybody else, the sender included, stays. *)
Theorem sendMessage_raises_unread_count reg a (conversationId : N) text file
    (now savedAt notifiedAt : Z) db m db' convo r b :
  Chat.sendMessage reg a conversationId text file now savedAt notifiedAt db
  = (Json 201 m, db') →
  Conversation.findById conversationId (conversations db) = Some convo →
  Notifications.actor r = Some b →
  ∃ k,
    Notifications.getUnreadCount r db = Json 200 k
    ∧ Notifications.getUnreadCount r db'
      = Json 200
          (if bool_decide (b = recipient a convo)
              && negb (online reg (recipient a convo))
           then k + 1 else k)%N.
Proof.
  intros Hsend Hfind Hb.
  destruct (sendMessage_accepted _ _ _ _ _ _ _ _ _ _ _ Hsend)
    as (convo' & Hfind' & Hp).
  assert (convo' = convo) as -> by congruence.
  rewrite (sendMessage_participant _ _ _ _ _ _ _ _ _ _ Hfind Hp) in Hsend.
  destruct (stored_text text file) as [stored|]; [|done].
  cbv zeta in Hsend. injection Hsend as _ <-.
  unfold Notifications.getUnreadCount. rewrite Hb.
  eexists. split; [reflexivity|]. f_equal. simpl.
  unfold Notifications.countDocuments. rewrite List.filter_app, length_app.
  destruct (online reg (recipient a convo)); simpl.
  - rewrite andb_false_r. lia.
  - rewrite unread_fallback, andb_true_r.
    destruct (bool_decide _); simpl; lia.
Qed.

Lemma sendMessage_raises_unread_count_witness :
  ∃ k,
    Notifications.getUnreadCount (Notifications.Requester None (Some 2%N))
      (Store [Conversation.Doc 0 1 2 10 "" 0 0 false false] [] [] ∅ ∅ 1)
    = Json 200 k
    ∧ Notifications.getUnreadCount (Notifications.Requester None (Some 2%N))
        (Chat.sendMessage Socket.init (Actor.Make Actor.user 1) 0
           (Some "Are you hiring?") None 11 12 13
           (Store [Conversation.Doc 0 1 2 10 "" 0 0 false false] [] []
                  ∅ ∅ 1)).2
      = Json 200
          (if bool_decide
                (Actor.Make Actor.company 2
                 = recipient (Actor.Make Actor.user 1)
                     (Conversation.Doc 0 1 2 10 "" 0 0 false false))
              && negb (online Socket.init
                         (recipient (Actor.Make Actor.user 1)
                            (Conversation.Doc 0 1 2 10 "" 0 0 false false)))
           then k + 1 else k)%N.
Proof.
  eapply (sendMessage_raises_unread_count Socket.init
            (Actor.Make Actor.user 1) 0 (Some "Are you hiring?") None
            11 12 13
            (Store [Conversation.Doc 0 1 2 10 "" 0 0 false false] [] []
                   ∅ ∅ 1)).
  - vm_compute. reflexivity.
  - reflexivity.
  - reflexivity.
Defined.

End composition.

Section listing_more.

Import ChatSpec Extra Server.

Implicit Types (a : Actor.t) (db : store) (c convo : Conversation.doc)
  (m : Message.doc) (n : Notification.doc).

Local Notation "'one_message'" :=
  (Store [Conversation.Doc 0 1 2 10 "Hi" 0 1 false false]
         [Message.Doc 1 0 Actor.user (Some 1%N) None "Hi" []
            (Some 11%Z) None 12] [] ∅ ∅ 2).


Lemma strongly_sorted_map {X Y} (f : X → Y) (R : Y → Y → Prop) (l : list X) :
  StronglySorted (λ x y, R (f x) (f y)) l → StronglySorted R (map f l).
Proof.
  induction 1 as [|x l Hs IH Hx]; simpl; constructor; [done|].
  apply Forall_forall. intros y (z & -> & Hz)%list_elem_of_fmap.
  by apply (proj1 (Forall_forall _ _) Hx).
Qed.


(** X22. Deleting a user takes away the conversations of that user, the
    messages of those conversations, the notifications addressed to the
    user and the profile, and nothing else: every other conversation,
    message and notification stays, in its place. *)
Theorem deleteUser_removes_what_the_user_owns (userId : N) db :
  (∀ c, c ∈ conversations (Cascade.deleteUser userId db)
        ↔ c ∈ conversations db ∧ Conversation.user c ≠ userId)
  ∧ (∀ m, m ∈ messages (Cascade.deleteUser userId db)
          ↔ m ∈ messages db
            ∧ ∀ c, c ∈ conversations db →
                   Conversation._id c = Message.conversation m →
                   Conversation.user c ≠ userId)
  ∧ (∀ n, n ∈ notifications (Cascade.deleteUser userId db)
          ↔ n ∈ notifications db ∧ Notification.userId n ≠ Some userId)
  ∧ userProfiles (Cascade.deleteUser userId db) !! userId = None
  ∧ conversations (Cascade.deleteUser userId db)
    `sublist_of` conversations db
  ∧ messages (Cascade.deleteUser userId db) `sublist_of` messages db
  ∧ notifications (Cascade.deleteUser userId db)
    `sublist_of` notifications db.
Proof.
  unfold Cascade.deleteUser. simpl.
  split; [|split; [|split; [|split; [apply lookup_delete_eq|]]]].
  - intros c. rewrite list_elem_of_In, filter_In, <- list_elem_of_In.
    by rewrite negb_true_iff, N.eqb_neq.
  - intros m. rewrite list_elem_of_In, filter_In, <- list_elem_of_In.
    rewrite negb_true_iff, <- not_true_iff_false, in_ids_spec.
    split; intros [Hm H]; (split; [done|]).
    + intros c Hc Hid Hu. apply H. rewrite <- Hid.
      apply list_elem_of_fmap_2, list_elem_of_In, filter_In.
      split; [by apply list_elem_of_In|by apply N.eqb_eq].
    + intros (c & Hid & Hc)%list_elem_of_fmap.
      apply list_elem_of_In, filter_In in Hc as [Hc%list_elem_of_In Hu].
      apply N.eqb_eq in Hu. by eapply H.
  - intros n. rewrite list_elem_of_In, filter_In, <- list_elem_of_In.
    rewrite negb_true_iff. unfold Notifications.eq_id.
    destruct (Notification.userId n) as [i|];
      [rewrite N.eqb_neq|]; split; intros [? ?]; split; congruence.
  - split; [|split]; apply filter_sublist.
Qed.

(** X23. Deleting a company does the same on the company side; the test
    for an empty list of conversation ids before the messages are deleted
    changes nothing. *)
Theorem deleteCompany_removes_what_the_company_owns (companyId : N) db :
  (∀ c, c ∈ conversations (Cascade.deleteCompany companyId db)
        ↔ c ∈ conversations db ∧ Conversation.company c ≠ companyId)
  ∧ (∀ m, m ∈ messages (Cascade.deleteCompany companyId db)
          ↔ m ∈ messages db
            ∧ ∀ c, c ∈ conversations db →
                   Conversation._id c = Message.conversation m →
                   Conversation.company c ≠ companyId)
  ∧ (∀ n, n ∈ notifications (Cascade.deleteCompany companyId db)
          ↔ n ∈ notifications db
            ∧ Notification.companyId n ≠ Some companyId)
  ∧ companyProfiles (Cascade.deleteCompany companyId db) !! companyId = None
  ∧ conversations (Cascade.deleteCompany companyId db)
    `sublist_of` conversations db
  ∧ messages (Cascade.deleteCompany companyId db) `sublist_of` messages db
  ∧ notifications (Cascade.deleteCompany companyId db)
    `sublist_of` notifications db.
Proof.
  unfold Cascade.deleteCompany. simpl.
  assert ((if (0 <? length
                      (map Conversation._id
                         (List.filter
                            (λ c, (Conversation.company c =? companyId)%N)
                            (conversations db))))%nat
           then List.filter
                  (λ m, negb (Cascade.in_ids
                                (map Conversation._id
                                   (List.filter
                                      (λ c, (Conversation.company c
                                             =? companyId)%N)
                                      (conversations db))) m))
                  (messages db)
           else messages db)
          = List.filter
              (λ m, negb (Cascade.in_ids
                            (map Conversation._id
                               (List.filter
                                  (λ c, (Conversation.company c
                                         =? companyId)%N)
                                  (conversations db))) m))
              (messages db)) as ->.
  { generalize (map Conversation._id
                  (List.filter (λ c, (Conversation.company c =? companyId)%N)
                               (conversations db))).
    intros [|i ids]; [|done]. simpl. symmetry. by apply filter_true. }
  split; [|split; [|split; [|split; [apply lookup_delete_eq|]]]].
  - intros c. rewrite list_elem_of_In, filter_In, <- list_elem_of_In.
    by rewrite negb_true_iff, N.eqb_neq.
  - intros m. rewrite list_elem_of_In, filter_In, <- list_elem_of_In.
    rewrite negb_true_iff, <- not_true_iff_false, in_ids_spec.
    split; intros [Hm H]; (split; [done|]).
    + intros c Hc Hid Hu. apply H. rewrite <- Hid.
      apply list_elem_of_fmap_2, list_elem_of_In, filter_In.
      split; [by apply list_elem_of_In|by apply N.eqb_eq].
    + intros (c & Hid & Hc)%list_elem_of_fmap.
      apply list_elem_of_In, filter_In in Hc as [Hc%list_elem_of_In Hu].
      apply N.eqb_eq in Hu. by eapply H.
  - intros n. rewrite list_elem_of_In, filter_In, <- list_elem_of_In.
    rewrite negb_true_iff. unfold Notifications.eq_id.
    destruct (Notification.companyId n) as [i|];
      [rewrite N.eqb_neq|]; split; intros [? ?]; split; congruence.
  - split; [|split]; apply filter_sublist.
Qed.

(** X24. Deleting a conversation removes the conversation and its
    messages and leaves every other conversation and message, and every
    notification, as it was. *)
Theorem deleteConversation_removes_its_messages (conversationId : N) db :
  NoDup (map Conversation._id (conversations db)) →
  conversations (Cascade.deleteConversation conversationId db)
  = List.filter (λ c, negb (Conversation._id c =? conversationId)%N)
                (conversations db)
  ∧ history conversationId (Cascade.deleteConversation conversationId db) = []
  ∧ (∀ other, other ≠ conversationId →
       history other (Cascade.deleteConversation conversationId db)
       = history other db)
  ∧ notifications (Cascade.deleteConversation conversationId db)
    = notifications db.
Proof.
  intros Hnd. unfold Cascade.deleteConversation, history. simpl.
  split; [by apply remove_first_filter|]. split; [|split; [|done]].
  - rewrite <- filter_andb. apply filter_false. intros m _.
    by destruct (Message.conversation m =? conversationId)%N.
  - intros other Hne. rewrite <- filter_andb. apply filter_ext. intros m.
    destruct (Message.conversation m =? conversationId)%N eqn:E; simpl;
      [|done].
    apply N.eqb_eq in E. rewrite E. symmetry. by apply N.eqb_neq.
Qed.

Lemma deleteConversation_removes_its_messages_witness :
  conversations (Cascade.deleteConversation 0 one_message)
  = List.filter (λ c, negb (Conversation._id c =? 0)%N)
                (conversations one_message)
  ∧ history 0 (Cascade.deleteConversation 0 one_message) = []
  ∧ (∀ other, other ≠ 0%N →
       history other (Cascade.deleteConversation 0 one_message)
       = history other one_message)
  ∧ notifications (Cascade.deleteConversation 0 one_message)
    = notifications one_message.
Proof.
  apply (deleteConversation_removes_its_messages 0 one_message).
  simpl. apply NoDup_singleton.
Defined.

End listing_more.

Section start_more.

Import ChatSpec Extra Server.

Implicit Types (a : Actor.t) (db : store) (c convo : Conversation.doc).

Lemma findOneAndUpdate_row (u co : N) (now : Z) (id : N)
    (table : list Conversation.doc) :
  (Conversation.findOneAndUpdate u co now id table).1.1
  ∈ (Conversation.findOneAndUpdate u co now id table).1.2
  ∧ pair (Conversation.findOneAndUpdate u co now id table).1.1 = (u, co)
  ∧ Conversation.lastMessageAt
      (Conversation.findOneAndUpdate u co now id table).1.1 = now.
Proof.
  unfold Conversation.findOneAndUpdate.
  destruct (Conversation.update_first _ _ _) as [[r t]|] eqn:E; simpl.
  - apply update_first_Some in E as (before & d & after & -> & Hf & -> & ->).
    apply find_some in Hf as [_ Hd%has_pair_true].
    split; [|split; [|done]].
    + apply elem_of_app. right. by left.
    + by destruct d.
  - split; [|done]. apply elem_of_app. right. by left.
Qed.

(** X25. [startConversation] answers 400 and changes nothing when the
    body has no well-formed id for the other side.  Otherwise it answers
    201 with a conversation of the store between the actor and the party
    the body names: the actor's own side is the actor's id whatever the
    body says about it, [lastMessageAt] is now, and the flag tells
    whether the other party is online.  No message and no notification
    is touched either way. *)
Theorem startConversation_reply reg a (bd : Chat.start_body) (now : Z) db :
  messages (Chat.startConversation reg a bd now db).2 = messages db
  ∧ notifications (Chat.startConversation reg a bd now db).2
    = notifications db
  ∧ match (Chat.startConversation reg a bd now db).1 with
    | Fail status _ =>
        status = 400
        ∧ (Chat.startConversation reg a bd now db).2 = db
        ∧ ∀ i, (if Actor.is_user a then Chat.companyId bd
                else Chat.userId bd) ≠ Chat.WellFormed i
    | Json status (convo, on) =>
        status = 201
        ∧ participant a convo
        ∧ (if Actor.is_user a then Chat.companyId bd else Chat.userId bd)
          = Chat.WellFormed (Actor.id (recipient a convo))
        ∧ convo ∈ conversations (Chat.startConversation reg a bd now db).2
        ∧ Conversation.lastMessageAt convo = now
        ∧ on = online reg (recipient a convo)
    end.
Proof.
  unfold Chat.startConversation, participant, recipient, online,
    Actor.is_user, Actor.other.
  destruct (Actor.type a) eqn:Ht.
  - destruct (Chat.companyId bd) as [| |co]; simpl; [done..|].
    pose proof (findOneAndUpdate_row (Actor.id a) co now (nextId db)
                  (conversations db)) as (Hin & Hp & Hnow).
    destruct (Conversation.findOneAndUpdate _ _ _ _ _) as [[convo table] ins].
    simpl in *. injection Hp as Hu Hc.
    assert (messages (if ins then bump (with_conversations table db)
                      else with_conversations table db) = messages db
            ∧ notifications (if ins then bump (with_conversations table db)
                             else with_conversations table db)
              = notifications db
            ∧ conversations (if ins then bump (with_conversations table db)
                             else with_conversations table db) = table)
      as (-> & -> & ->) by by destruct ins.
    split; [done|]. split; [done|]. split; [done|].
    split; [by left|]. by rewrite Hc.
  - destruct (Chat.userId bd) as [| |u]; simpl; [done..|].
    pose proof (findOneAndUpdate_row u (Actor.id a) now (nextId db)
                  (conversations db)) as (Hin & Hp & Hnow).
    destruct (Conversation.findOneAndUpdate _ _ _ _ _) as [[convo table] ins].
    simpl in *. injection Hp as Hu Hc.
    assert (messages (if ins then bump (with_conversations table db)
                      else with_conversations table db) = messages db
            ∧ notifications (if ins then bump (with_conversations table db)
                             else with_conversations table db)
              = notifications db
            ∧ conversations (if ins then bump (with_conversations table db)
                             else with_conversations table db) = table)
      as (-> & -> & ->) by by destruct ins.
    split; [done|]. split; [done|]. split; [done|].
    split; [by right|]. by rewrite Hu.
Qed.

End start_more.
